(** * The MySQL driver of kine: dialect, schema setup and DSN preparation

    A shallow embedding of [pkg/drivers/mysql/mysql.go].  The Go code builds
    SQL text with [fmt.Sprintf], fills a dialect value for the generic SQL
    layer and talks to the server through [database/sql].  Here

    - SQL text is a [string], built by a model of [fmt.Sprintf];
    - a Go [error] is a value of the inductive type [error];
    - the server is an abstract world [W] that every call reads and updates,
      together with the list of statements handed to [db.Exec];
    - the two queries of the dialect (compaction and size) are also given as
      functions on the tables they read, so that what they select can be
      stated. *)

From Stdlib Require Import ZArith NArith Ascii String List Lia.
From Stdlib Require Import DecimalString DecimalPos DecimalN.
From stdpp Require Import gmap strings list fin_maps.

(** ** Go values *)

(** [github.com/go-sql-driver/mysql]: the parts of the library the driver
    touches. *)
Module mysql.

(** [MySQLError.Number] is a [uint16]. *)
Record MySQLError : Type := {
  Number : N;
  SQLState : string;
  Message : string
}.

(** [mysql.Config]: the two fields the driver assigns, and the rest of the
    parsed DSN kept as it is. *)
Record Config (R : Type) : Type := {
  DBName : string;
  TLSConfig : string;
  rest : R
}.
Arguments DBName {R} _.
Arguments TLSConfig {R} _.
Arguments rest {R} _.

End mysql.

(** A value of the interface type [error]: [nil], a [*mysql.MySQLError]
    (pointers returned by the driver are never nil pointers), or a value of
    any other dynamic type, which is known by its [Error()] text only.  The
    type assertion of the source, to a pointer to [mysql.MySQLError],
    succeeds on the second constructor and on no other; in particular it
    does not unwrap. *)
Inductive error : Type :=
  | err_nil
  | err_mysql (e : mysql.MySQLError)
  | err_other (msg : string).

#[global] Instance MySQLError_eq_dec : EqDecision mysql.MySQLError.
Proof. solve_decision. Defined.
#[global] Instance error_eq_dec : EqDecision error.
Proof. solve_decision. Defined.

(** The type assertion [err, ok := err.(T)] at [T] the pointer type of
    [mysql.MySQLError]; [None] is [ok = false]. *)
Definition as_MySQLError (err : error) : option mysql.MySQLError :=
  match err with
  | err_mysql e => Some e
  | _ => None
  end.

(** [fmt.Sprint] of an unsigned integer: its decimal digits. *)
Definition Sprint (n : N) : string := NilZero.string_of_uint (N.to_uint n).

(** [strings.Join] *)
Fixpoint Join (l : list string) (sep : string) : string :=
  match l with
  | [] => EmptyString
  | [x] => x
  | x :: l' => x +:+ sep +:+ Join l' sep
  end.

(** [fmt.Sprintf] for formats whose only verb is [%s] and whose operands are
    strings, which is every call of the driver.  A verb without operand
    prints [%!s(MISSING)], operands left over are reported at the end. *)
Fixpoint Sprintf (format : string) (a : list string) : string :=
  match format with
  | String "%" (String "s" format') =>
      match a with
      | x :: a' => x +:+ Sprintf format' a'
      | [] => "%!s(MISSING)" +:+ Sprintf format' []
      end
  | String c format' => String c (Sprintf format' a)
  | EmptyString =>
      match a with
      | [] => EmptyString
      | _ => "%!(EXTRA " +:+ Join (map (λ x, "string=" +:+ x) a) ", " +:+ ")"
      end
  end.

(** ** SQL text of the driver *)

Definition defaultUnixDSN : string := "root@unix(/var/run/mysqld/mysqld.sock)/".
Definition defaultHostDSN : string := "root@tcp(127.0.0.1)/".

(** The format strings of [getSchema], [getSchemaMigrations] and [New], with
    the line breaks and tabs of the source. *)
Definition createTableFmt : string :=
  "CREATE TABLE IF NOT EXISTS %s
			(
				id BIGINT UNSIGNED AUTO_INCREMENT,
				name VARCHAR(630) CHARACTER SET ascii,
				created INTEGER,
				deleted INTEGER,
				create_revision BIGINT UNSIGNED,
				prev_revision BIGINT UNSIGNED,
				lease INTEGER,
				value MEDIUMBLOB,
				old_value MEDIUMBLOB,
				PRIMARY KEY (id)
			);".
Definition nameIndexFmt : string :=
  "CREATE INDEX %s_name_index ON %s (name)".
Definition nameIdIndexFmt : string :=
  "CREATE INDEX %s_name_id_index ON %s (name,id)".
Definition idDeletedIndexFmt : string :=
  "CREATE INDEX %s_id_deleted_index ON %s (id,deleted)".
Definition prevRevisionIndexFmt : string :=
  "CREATE INDEX %s_prev_revision_index ON %s (prev_revision)".
Definition namePrevRevisionUindexFmt : string :=
  "CREATE UNIQUE INDEX %s_name_prev_revision_uindex ON %s (name, prev_revision)".
Definition migration0Fmt : string :=
  "ALTER TABLE %s MODIFY COLUMN id BIGINT UNSIGNED AUTO_INCREMENT NOT NULL UNIQUE, MODIFY COLUMN create_revision BIGINT UNSIGNED, MODIFY COLUMN prev_revision BIGINT UNSIGNED".
Definition migration1 : string := EmptyString.
Definition getSizeFmt : string :=
  "
		SELECT SUM(data_length + index_length)
		FROM information_schema.TABLES
		WHERE table_schema = DATABASE() AND table_name = '%s'".
Definition compactFmt : string :=
  "
		DELETE kv FROM %s AS kv
		INNER JOIN (
			SELECT kp.prev_revision AS id
			FROM %s AS kp
			WHERE
				kp.name != 'compact_rev_key' AND
				kp.prev_revision != 0 AND
				kp.id <= ?
			UNION
			SELECT kd.id AS id
			FROM %s AS kd
			WHERE
				kd.deleted != 0 AND
				kd.id <= ?
		) AS ks
		ON kv.id = ks.id".

Definition createDB : string := "CREATE DATABASE IF NOT EXISTS `%s`;".

(** [getSchema] *)
Definition getSchema (tableName : string) : list string :=
  [ Sprintf createTableFmt [tableName];
    Sprintf nameIndexFmt [tableName; tableName];
    Sprintf nameIdIndexFmt [tableName; tableName];
    Sprintf idDeletedIndexFmt [tableName; tableName];
    Sprintf prevRevisionIndexFmt [tableName; tableName];
    Sprintf namePrevRevisionUindexFmt [tableName; tableName] ].

(** [getSchemaMigrations]: the second migration is empty, to keep the
    migration numbers of the postgres and mysql drivers aligned. *)
Definition getSchemaMigrations (tableName : string) : list string :=
  [ Sprintf migration0Fmt [tableName];
    migration1 ].

(** ** The dialect *)

(** [generic.Generic]: the fields assigned or read by [New]; every other
    field is carried along in [generic_rest]. *)
Record Generic (DB R : Type) : Type := {
  LastInsertID : bool;
  GetSizeSQL : string;
  CompactSQL : string;
  TranslateErr : error → error;
  ErrCode : error → string;
  DB_ : DB;
  generic_rest : R
}.
Arguments LastInsertID {DB R} _.
Arguments GetSizeSQL {DB R} _.
Arguments CompactSQL {DB R} _.
Arguments TranslateErr {DB R} _.
Arguments ErrCode {DB R} _.
Arguments DB_ {DB R} _.
Arguments generic_rest {DB R} _.

(** The function literal assigned to [dialect.TranslateErr]; [ErrKeyExists]
    is [server.ErrKeyExists]. *)
Definition mysqlTranslateErr (ErrKeyExists : error) (err : error) : error :=
  match as_MySQLError err with
  | Some e => if (mysql.Number e =? 1062)%N then ErrKeyExists else err
  | None => err
  end.

(** The function literal assigned to [dialect.ErrCode]: the empty string
    for [nil], the printed number for a [MySQLError], and [err.Error()] for
    an error of any other type. *)
Definition mysqlErrCode (err : error) : string :=
  match err with
  | err_nil => EmptyString
  | err_mysql e => Sprint (mysql.Number e)
  | err_other msg => msg
  end.

(** ** [strconv.ParseUint(s, 10, 64)] and the conversion to [int] *)

Inductive NumError : Type := ErrSyntax | ErrRange.

Definition maxUint64 : N := 2 ^ 64 - 1.
Definition cutoff64 : N := maxUint64 / 10 + 1.

Definition is_digit (c : ascii) : bool :=
  (48 <=? N_of_ascii c)%N && (N_of_ascii c <=? 57)%N.

(** The digit loop: [n] is the value read so far.  A byte that is not a
    decimal digit is a syntax error with value 0; a value past 64 bits is a
    range error with the largest value. *)
Fixpoint parseDigits (s : string) (n : N) : N * option NumError :=
  match s with
  | EmptyString => (n, None)
  | String c s' =>
      if is_digit c then
        let d := (N_of_ascii c - 48)%N in
        if (cutoff64 <=? n)%N then (maxUint64, Some ErrRange)
        else
          let n10 := (n * 10)%N in
          let n1 := ((n10 + d) mod 2 ^ 64)%N in
          if (n1 <? n10)%N || (maxUint64 <? n1)%N then (maxUint64, Some ErrRange)
          else parseDigits s' n1
      else (0%N, Some ErrSyntax)
  end.

Definition ParseUint (s : string) : N * option NumError :=
  match s with
  | EmptyString => (0%N, Some ErrSyntax)
  | _ => parseDigits s 0
  end.

(** [int(u)] for a [uint64] on a 64-bit platform: the same 64 bits read as
    two's complement. *)
Definition int_of_uint64 (u : N) : Z :=
  ((Z.of_N u + 2 ^ 63) mod 2 ^ 64 - 2 ^ 63)%Z.

(** ** The world outside the driver *)

(** The result of a library call that returns a value and an error. *)
Inductive result (A : Type) : Type :=
  | Ok (a : A)
  | Fail (err : error).
Arguments Ok {A} a.
Arguments Fail {A} err.

(** [crypto/tls.Config]: [New] assigns [MinVersion]. *)
Record TLSConfig (R : Type) : Type := {
  MinVersion : N;
  tls_rest : R
}.
Arguments MinVersion {R} _.
Arguments tls_rest {R} _.

Definition VersionTLS11 : N := 770. (* 0x0302 *)

(** [drivers.Config] *)
Record Config (TLS Pool Metrics : Type) : Type := {
  BackendTLSConfig : TLS;
  DataSourceName : string;
  ConnectionPoolConfig : Pool;
  MetricsRegisterer : Metrics;
  TableName : string
}.
Arguments BackendTLSConfig {TLS Pool Metrics} _.
Arguments DataSourceName {TLS Pool Metrics} _.
Arguments ConnectionPoolConfig {TLS Pool Metrics} _.
Arguments MetricsRegisterer {TLS Pool Metrics} _.
Arguments TableName {TLS Pool Metrics} _.

(** Everything the driver calls and this file does not define: the types it
    only passes around, [database/sql], the MySQL client library, the
    process environment and the other packages of kine.  A call reads the
    world [W] and returns the world after it. *)
Class Extern : Type := {
  W : Type;
  DB : Type;                (* the connection pool behind [*sql.DB] *)
  TLSRest : Type;
  DSNRest : Type;
  GenericRest : Type;
  TLSSettings : Type;       (* [tls.Config] of kine *)
  Pool : Type;              (* [generic.ConnectionPoolConfig] *)
  Metrics : Type;           (* [prometheus.Registerer] *)
  Backend : Type;           (* [server.Backend] *)
  (* database/sql *)
  sql_Open : string → string → W → result DB * W;
  db_Close : DB → W → W;
  (* [db.QueryRow(query, arg).Scan(&exists)]: the error of [Scan] and, when
     it is nil, the value stored in [exists] *)
  db_QueryRow_Scan : DB → string → string → W → (error * bool) * W;
  db_Exec : DB → string → W → error * W;
  (* github.com/go-sql-driver/mysql *)
  ParseDSN : string → result (mysql.Config DSNRest);
  FormatDSN : mysql.Config DSNRest → string;
  RegisterTLSConfig : string → TLSConfig TLSRest → W → error * W;
  (* os *)
  Getenv : string → W → string;
  (* kine *)
  ClientConfig : TLSSettings → W → result (option (TLSConfig TLSRest)) * W;
  generic_Open :
    string → string → Pool → string → bool → Metrics → string →
    W → result (Generic DB GenericRest) * W;
  generic_Migrate : Generic DB GenericRest → W → W;
  logstructured_New : Generic DB GenericRest → Backend;  (* around [sqllog.New] *)
  ErrKeyExists : error      (* [server.ErrKeyExists] *)
}.

(** One call of [db.Exec]: the pool, the statement, the error returned. *)
Record ExecCall `{Extern} : Type := {
  exec_db : DB;
  exec_stmt : string;
  exec_err : error
}.

(** The state threaded through the driver: the world, and the calls of
    [db.Exec] made so far, oldest first. *)
Record State `{Extern} : Type := {
  world : W;
  execs : list ExecCall
}.

Definition M `{Extern} (A : Type) : Type := State → A * State.

#[global] Instance M_ret `{Extern} : MRet M := λ A a s, (a, s).

#[global] Instance M_bind `{Extern} : MBind M :=
  λ A B k m s, let (a, s') := m s in k a s'.

(** Lifting a call on the world. *)
Definition call `{Extern} {A : Type} (f : W → A * W) : M A :=
  λ s, let (a, w) := f (world s) in (a, {| world := w; execs := execs s |}).

Definition Exec `{Extern} (db : DB) (stmt : string) : M error :=
  λ s, let (err, w) := db_Exec db stmt (world s) in
       (err, {| world := w;
                execs := execs s ++ [{| exec_db := db; exec_stmt := stmt; exec_err := err |}] |}).

Definition Close `{Extern} (db : DB) : M unit :=
  call (λ w, (tt, db_Close db w)).

(** ** [setup] *)

(** The test [!ok || mysqlError.Number != code] that makes [setup] and
    [createDBIfNotExist] return the error of a statement. *)
Definition fatal (code : N) (err : error) : bool :=
  match as_MySQLError err with
  | Some mysqlError => negb (mysql.Number mysqlError =? code)%N
  | None => true
  end.

Definition is_nil (err : error) : bool :=
  match err with err_nil => true | _ => false end.

Definition tableExistsQuery : string :=
  "SELECT 1 FROM information_schema.TABLES WHERE table_schema = DATABASE() AND table_name = ?".

(** The loop over [getSchema(tableName)]; [None] when the loop runs to its
    end, [Some err] when it returns [err] from [setup]. *)
Fixpoint execSchema `{Extern} (db : DB) (stmts : list string) : M (option error) :=
  match stmts with
  | [] => mret None
  | stmt :: stmts' =>
      err ← Exec db stmt;
      if negb (is_nil err) && fatal 1061 err then mret (Some err)
      else execSchema db stmts'
  end.

(** The loop over [getSchemaMigrations(tableName)]: [i] is the index of the
    head of [stmts], [level] is [int(schemaVersion)]. *)
Fixpoint execMigrations `{Extern} (db : DB) (level : Z) (i : Z) (stmts : list string)
  : M (option error) :=
  match stmts with
  | [] => mret None
  | stmt :: stmts' =>
      if (i >=? level)%Z then mret None                               (* break *)
      else if String.eqb stmt EmptyString
      then execMigrations db level (i + 1)%Z stmts'                   (* continue *)
      else
        err ← Exec db stmt;
        if negb (is_nil err) && fatal 1061 err then mret (Some err)
        else execMigrations db level (i + 1)%Z stmts'
  end.

(** [setup].  The calls of [logrus] are left out: they change neither what
    is executed nor what is returned.  An error of the existence query,
    [sql.ErrNoRows] or another, leaves [exists] false. *)
Definition setup `{Extern} (db : DB) (tableName : string) : M error :=
  '(err, scanned) ← call (db_QueryRow_Scan db tableExistsQuery tableName);
  let exists_ := if is_nil err then scanned else false in
  r ← (if negb exists_ then execSchema db (getSchema tableName) else mret None);
  match r with
  | Some err => mret err
  | None =>
      env ← call (λ w, (Getenv "KINE_SCHEMA_MIGRATION" w, w));
      let schemaVersion := fst (ParseUint env) in
      r ← execMigrations db (int_of_uint64 schemaVersion) 0 (getSchemaMigrations tableName);
      match r with
      | Some err => mret err
      | None => mret err_nil
      end
  end.

(** ** [createDBIfNotExist] *)

Definition dbExistsQuery : string :=
  "SELECT 1 FROM information_schema.SCHEMATA WHERE schema_name = ?".

Definition createDBIfNotExist `{Extern} (dataSourceName : string) : M error :=
  match ParseDSN dataSourceName with
  | Fail err => mret err
  | Ok config =>
      let dbName := mysql.DBName config in
      r ← call (sql_Open "mysql" dataSourceName);
      match r with
      | Fail err => mret err
      | Ok db =>
          '(err, scanned) ← call (db_QueryRow_Scan db dbExistsQuery dbName);
          let exists_ := if is_nil err then scanned else false in
          err ←
            (if negb exists_ then
               let stmt := Sprintf createDB [dbName] in
               err ← Exec db stmt;
               if is_nil err then mret err_nil
               else if fatal 1049 err then mret err
               else
                 let config :=
                   {| mysql.DBName := EmptyString;
                      mysql.TLSConfig := mysql.TLSConfig config;
                      mysql.rest := mysql.rest config |} in
                 r ← call (sql_Open "mysql" (FormatDSN config));
                 match r with
                 | Fail err => mret err
                 | Ok db' =>
                     err ← Exec db' stmt;
                     _ ← Close db';                               (* deferred *)
                     mret err
                 end
             else mret err_nil);
          _ ← Close db;                                           (* deferred *)
          mret err
      end
  end.

(** ** [prepareDSN] *)

Definition prepareDSN `{Extern}
    (dataSourceName : string) (tlsConfig : option (TLSConfig TLSRest))
  : M (string * error) :=
  let dataSourceName :=
    if (String.length dataSourceName =? 0)%nat then
      match tlsConfig with
      | Some _ => defaultHostDSN
      | None => defaultUnixDSN
      end
    else dataSourceName in
  match ParseDSN dataSourceName with
  | Fail err => mret (EmptyString, err)
  | Ok config =>
      r ← match tlsConfig with
          | Some tc =>
              err ← call (RegisterTLSConfig "kine" tc);
              if is_nil err
              then mret (Ok {| mysql.DBName := mysql.DBName config;
                               mysql.TLSConfig := "kine";
                               mysql.rest := mysql.rest config |})
              else mret (Fail err)
          | None => mret (Ok config)
          end;
      match r with
      | Fail err => mret (EmptyString, err)
      | Ok config =>
          let dbName :=
            if (0 <? String.length (mysql.DBName config))%nat
            then mysql.DBName config
            else "kubernetes" in
          let config :=
            {| mysql.DBName := dbName;
               mysql.TLSConfig := mysql.TLSConfig config;
               mysql.rest := mysql.rest config |} in
          let parsedDSN := FormatDSN config in
          mret (parsedDSN, err_nil)
      end
  end.

(** ** [New] *)

(** Lines 85 to 88: the table name the driver works with. *)
Definition tableNameOf `{Extern} (cfg : Config TLSSettings Pool Metrics) : string :=
  if String.eqb (TableName cfg) EmptyString then "kine" else TableName cfg.

(** Lines 90 to 126: the assignments to the fields of the dialect. *)
Definition configure `{Extern} (dialect : Generic DB GenericRest) (tableName : string)
  : Generic DB GenericRest :=
  {| LastInsertID := true;
     GetSizeSQL := Sprintf getSizeFmt [tableName];
     CompactSQL := Sprintf compactFmt [tableName; tableName; tableName];
     TranslateErr := mysqlTranslateErr ErrKeyExists;
     ErrCode := mysqlErrCode;
     DB_ := DB_ dialect;
     generic_rest := generic_rest dialect |}.

Definition New `{Extern} (cfg : Config TLSSettings Pool Metrics)
  : M (bool * option Backend * error) :=
  r ← call (ClientConfig (BackendTLSConfig cfg));
  match r with
  | Fail err => mret (false, None, err)
  | Ok tlsConfig =>
      let tlsConfig :=
        match tlsConfig with
        | Some tc => Some {| MinVersion := VersionTLS11; tls_rest := tls_rest tc |}
        | None => None
        end in
      '(parsedDSN, err) ← prepareDSN (DataSourceName cfg) tlsConfig;
      if negb (is_nil err) then mret (false, None, err) else
      err ← createDBIfNotExist parsedDSN;
      if negb (is_nil err) then mret (false, None, err) else
      r ← call (generic_Open "mysql" parsedDSN (ConnectionPoolConfig cfg) "?" false
                  (MetricsRegisterer cfg) (TableName cfg));
      match r with
      | Fail err => mret (false, None, err)
      | Ok dialect =>
          let tableName := tableNameOf cfg in
          let dialect := configure dialect tableName in
          err ← setup (DB_ dialect) tableName;
          if negb (is_nil err) then mret (false, None, err) else
          _ ← call (λ w, (tt, generic_Migrate dialect w));
          mret (true, Some (logstructured_New dialect), err_nil)
      end
  end.

(** ** The log table and the compaction statement *)

(** A row of the table created by [getSchema], without its [id].  Rows are
    written by the log with every column set, so no column is NULL; [name]
    is compared as the log wrote it. *)
Record Row : Type := {
  name : string;
  created : Z;
  deleted : Z;
  create_revision : N;
  prev_revision : N;
  lease : Z;
  value : list N;
  old_value : list N
}.

#[global] Instance Row_eq_dec : EqDecision Row.
Proof. solve_decision. Defined.

(** The table: [id] is its primary key, so it is a finite map from [id] to
    the other columns.  A pair [(i, r)] of the map is the row with
    [id = i]. *)
Abbreviation Table := (gmap N Row).

Definition compact_rev_key : string := "compact_rev_key".

(** The first operand of the [UNION] of [CompactSQL]:
    [SELECT kp.prev_revision AS id FROM t AS kp WHERE
     kp.name != 'compact_rev_key' AND kp.prev_revision != 0 AND kp.id <= ?] *)
Definition select_prev_revisions (t : Table) (p1 : Z) : list N :=
  (λ kp : N * Row, prev_revision kp.2) <$>
    filter (λ kp : N * Row,
              name kp.2 ≠ compact_rev_key ∧
              prev_revision kp.2 ≠ 0%N ∧
              (Z.of_N kp.1 ≤ p1)%Z)
           (map_to_list t).

(** The second operand:
    [SELECT kd.id AS id FROM t AS kd WHERE kd.deleted != 0 AND kd.id <= ?] *)
Definition select_deleted (t : Table) (p2 : Z) : list N :=
  (λ kd : N * Row, kd.1) <$>
    filter (λ kd : N * Row, deleted kd.2 ≠ 0%Z ∧ (Z.of_N kd.1 ≤ p2)%Z)
           (map_to_list t).

(** The derived table [ks]: [UNION] keeps one copy of each [id]. *)
Definition ks (t : Table) (p1 p2 : Z) : gset N :=
  list_to_set (select_prev_revisions t p1) ∪ list_to_set (select_deleted t p2).

(** [DELETE kv FROM t AS kv INNER JOIN (...) AS ks ON kv.id = ks.id]: the
    table without the rows that have a partner in [ks]. *)
Definition CompactSQL_run (t : Table) (p1 p2 : Z) : Table :=
  filter (λ kv : N * Row, kv.1 ∉ ks t p1 p2) t.

(** Compaction up to [target]: both placeholders of the statement stand for
    the target revision. *)
Definition compact (t : Table) (target : Z) : Table :=
  CompactSQL_run t target target.

(** [p] supersedes the row with id [i]: [p] is a row of the log (not the
    compact watermark, whose [prev_revision] is a revision number and not a
    link) and names [i] as its previous revision. *)
Definition supersedes (p : Row) (i : N) : Prop :=
  name p ≠ compact_rev_key ∧ prev_revision p = i.

(** The live row of its key: not a tombstone, no row of the same key with
    [deleted = 0] has a greater id, and no later row supersedes it. *)
Definition live (t : Table) (i : N) (r : Row) : Prop :=
  t !! i = Some r ∧
  deleted r = 0%Z ∧
  (∀ j q, t !! j = Some q → name q = name r → deleted q = 0%Z → (j ≤ i)%N) ∧
  (∀ j p, t !! j = Some p → (i < j)%N → ¬ supersedes p i).

(** What the data model says of a log: ids start at 1 (AUTO_INCREMENT), a
    row of a key supersedes an earlier row of the same key, and the compact
    watermark row is not a tombstone. *)
Record log_wf (t : Table) : Prop := {
  wf_id_pos : t !! 0%N = None;
  wf_prev_earlier :
    ∀ j p, t !! j = Some p → name p ≠ compact_rev_key → (prev_revision p < j)%N;
  wf_prev_same_key :
    ∀ j p r, t !! j = Some p → name p ≠ compact_rev_key →
             t !! prev_revision p = Some r → name r = name p;
  wf_watermark_kept :
    ∀ i r, t !! i = Some r → name r = compact_rev_key → deleted r = 0%Z
}.

(** ** The size statement *)

(** A row of [information_schema.TABLES]; the two lengths are NULL for a
    view. *)
Record TABLES_row : Type := {
  table_schema : string;
  table_name : string;
  data_length : option N;
  index_length : option N
}.

#[global] Instance TABLES_row_eq_dec : EqDecision TABLES_row.
Proof. solve_decision. Defined.



(** ** Reading the schema statements *)

(** The statements of [getSchema] are read back by a reader for the two
    forms of statement it produces.  Words are the runs of bytes between
    blanks, parentheses, commas and semicolons. *)
Inductive token : Type :=
  | T_word (w : string)
  | T_lparen
  | T_rparen
  | T_comma
  | T_semi.

Definition is_blank (c : ascii) : bool :=
  match N_of_ascii c with
  | 9%N | 10%N | 13%N | 32%N => true
  | _ => false
  end.

Definition punctuation (c : ascii) : option token :=
  match N_of_ascii c with
  | 40%N => Some T_lparen
  | 41%N => Some T_rparen
  | 44%N => Some T_comma
  | 59%N => Some T_semi
  | _ => None
  end.

Definition word_char (c : ascii) : bool :=
  negb (is_blank c) && negb (bool_decide (is_Some (punctuation c))).

Definition push (w : string) (ts : list token) : list token :=
  match w with
  | EmptyString => ts
  | _ => T_word w :: ts
  end.

(** One byte in front of a text already read: [r] is the word that starts
    that text, possibly empty, and the tokens after it. *)
Definition lex_step (c : ascii) (r : string * list token) : string * list token :=
  if is_blank c then (EmptyString, push r.1 r.2)
  else
    match punctuation c with
    | Some p => (EmptyString, p :: push r.1 r.2)
    | None => (String c r.1, r.2)
    end.

Fixpoint lexR (s : string) : string * list token :=
  match s with
  | EmptyString => (EmptyString, [])
  | String c s' => lex_step c (lexR s')
  end.

Definition lex (s : string) : list token :=
  push (lexR s).1 (lexR s).2.

(** A column definition: its name and the words of its type. *)
Record Column : Type := {
  column_name : string;
  column_type : list token
}.

Inductive Statement : Type :=
  | CreateTable (table : string) (columns : list Column) (primary_key : list string)
  | CreateIndex (unique : bool) (index : string) (table : string) (columns : list string).

(** [names ts]: the comma-separated names up to the closing parenthesis,
    and the tokens after it. *)
Fixpoint names (ts : list token) : option (list string * list token) :=
  match ts with
  | T_word w :: T_rparen :: ts' => Some ([w], ts')
  | T_word w :: T_comma :: ts' =>
      '(l, ts'') ← names ts'; Some (w :: l, ts'')
  | _ => None
  end.

(** [item depth ts]: the tokens of [ts] up to the first comma or closing
    parenthesis that is not inside parentheses, and the tokens from there
    on. *)
Fixpoint item (depth : nat) (ts : list token) : list token * list token :=
  match ts with
  | [] => ([], [])
  | T_lparen :: ts' =>
      let (i, r) := item (S depth) ts' in (T_lparen :: i, r)
  | T_rparen :: ts' =>
      match depth with
      | O => ([], ts)
      | S depth' => let (i, r) := item depth' ts' in (T_rparen :: i, r)
      end
  | T_comma :: ts' =>
      match depth with
      | O => ([], ts)
      | S _ => let (i, r) := item depth ts' in (T_comma :: i, r)
      end
  | t :: ts' =>
      let (i, r) := item depth ts' in (t :: i, r)
  end.

(** The items between the parentheses of [CREATE TABLE]: column definitions
    and one [PRIMARY KEY (...)] clause; [n] bounds the number of items. *)
Fixpoint table_items (n : nat) (ts : list token)
  : option (list Column * list string * list token) :=
  match n with
  | O => None
  | S n' =>
      let (i, r) := item 0 ts in
      '(cols, pk) ←
        match i with
        | T_word p :: T_word k :: T_lparen :: i' =>
            if String.eqb p "PRIMARY" && String.eqb k "KEY" then
              match names i' with
              | Some (l, []) => Some ([], l)
              | _ => None
              end
            else Some ([{| column_name := p; column_type := T_word k :: T_lparen :: i' |}], [])
        | T_word c :: ty => Some ([{| column_name := c; column_type := ty |}], [])
        | _ => None
        end;
      match r with
      | T_rparen :: r' => Some (cols, pk, r')
      | T_comma :: r' =>
          '(cols', pk', r'') ← table_items n' r';
          Some (cols ++ cols', pk ++ pk', r'')
      | _ => None
      end
  end.

Definition parse_index (unique : bool) (ts : list token) : option Statement :=
  match ts with
  | T_word i :: T_word on :: T_word t :: T_lparen :: ts' =>
      if String.eqb on "ON" then
        match names ts' with
        | Some (cols, []) => Some (CreateIndex unique i t cols)
        | _ => None
        end
      else None
  | _ => None
  end.

Definition parse_table (ts : list token) : option Statement :=
  match ts with
  | T_word i :: T_word n :: T_word e :: T_word t :: T_lparen :: ts' =>
      if String.eqb i "IF" && String.eqb n "NOT" && String.eqb e "EXISTS" then
        match table_items (length ts') ts' with
        | Some (cols, pk, [T_semi]) => Some (CreateTable t cols pk)
        | Some (cols, pk, []) => Some (CreateTable t cols pk)
        | _ => None
        end
      else None
  | _ => None
  end.

Definition parse (s : string) : option Statement :=
  match lex s with
  | T_word c :: T_word k :: ts =>
      if String.eqb c "CREATE" then
        if String.eqb k "TABLE" then parse_table ts
        else if String.eqb k "INDEX" then parse_index false ts
        else if String.eqb k "UNIQUE" then
          match ts with
          | T_word k' :: ts' =>
              if String.eqb k' "INDEX" then parse_index true ts' else None
          | _ => None
          end
        else None
      else None
  | _ => None
  end.

(** A table name that reads as one word. *)
Definition one_word (tableName : string) : Prop :=
  tableName ≠ EmptyString ∧
  Forall (λ c, word_char c = true) (list_ascii_of_string tableName).

(** ** Runs of statements *)

(** The errors of a statement that [setup] passes over: none, or the
    duplicate-index error 1061 of MySQL. *)
Definition duplicate_index (err : error) : Prop :=
  ∃ e, err = err_mysql e ∧ mysql.Number e = 1061%N.

Definition passed_over (err : error) : Prop :=
  err = err_nil ∨ duplicate_index err.

(** [ran db stmts calls err]: [calls] are calls of [db.Exec] on [db] with
    the statements of [stmts], from the first on and in their order; either
    every statement was executed, every error was passed over and [err] is
    nil, or the last call returned [err], which is not passed over, and
    every error before it was. *)
Definition ran `{Extern} (db : DB) (stmts : list string) (calls : list ExecCall)
    (err : error) : Prop :=
  Forall (λ c, exec_db c = db) calls ∧
  ((err = err_nil ∧
    exec_stmt <$> calls = stmts ∧
    Forall (λ c, passed_over (exec_err c)) calls)
   ∨
   (err ≠ err_nil ∧
    ∃ calls0 c stmts',
      calls = calls0 ++ [c] ∧
      stmts = (exec_stmt <$> calls0) ++ exec_stmt c :: stmts' ∧
      Forall (λ c, passed_over (exec_err c)) calls0 ∧
      exec_err c = err ∧ ¬ passed_over err)).

(** The migrations enabled at [level]: the statements among the first
    [level] entries of the list that are not empty. *)
Definition enabled_migrations (level : Z) (tableName : string) : list string :=
  filter (λ stmt, stmt ≠ EmptyString) (take (Z.to_nat level) (getSchemaMigrations tableName)).

(** The value of [exists] in [setup] after the existence query: true when
    [Scan] returned no error and stored true. *)
Definition table_found `{Extern} (db : DB) (tableName : string) (s : State) : bool :=
  let r := (db_QueryRow_Scan db tableExistsQuery tableName (world s)).1 in
  is_nil r.1 && r.2.

(** [int(schemaVersion)] for the value [env] of KINE_SCHEMA_MIGRATION. *)
Definition migration_level (env : string) : Z :=
  int_of_uint64 (ParseUint env).1.

(** The statements [setup] is to execute: the schema unless the table was
    found, then the enabled migrations. *)
Definition setup_statements (found : bool) (level : Z) (tableName : string) : list string :=
  (if found then [] else getSchema tableName) ++ enabled_migrations level tableName.

(** ** A scripted server *)

(** A world for examples: the answers of the server to the coming calls of
    [db.Exec] (nil once the script is over), and whether the existence
    queries find a row. *)
Record Script : Type := {
  answers : list error;
  found : bool
}.

(** A DSN is read as the text up to its last slash and the database name
    after it. *)
Fixpoint split_dsn (s : string) : option (string * string) :=
  match s with
  | EmptyString => None
  | String c s' =>
      match split_dsn s' with
      | Some (a, b) => Some (String c a, b)
      | None => if Ascii.eqb c "/" then Some ("/", s') else None
      end
  end.

(** The scripted world, in a process where KINE_SCHEMA_MIGRATION is
    [env]. *)
Definition scripted (env : string) : Extern := {|
  W := Script;
  DB := string;
  TLSRest := unit;
  DSNRest := string;
  GenericRest := unit;
  TLSSettings := bool;
  Pool := unit;
  Metrics := unit;
  Backend := Generic string unit;
  sql_Open := λ _ dsn w, (Ok dsn, w);
  db_Close := λ _ w, w;
  db_QueryRow_Scan := λ _ _ _ w,
    (if found w then (err_nil, true) else (err_other "sql: no rows in result set", false), w);
  db_Exec := λ _ _ w,
    match answers w with
    | [] => (err_nil, w)
    | e :: l => (e, {| answers := l; found := found w |})
    end;
  ParseDSN := λ s,
    match split_dsn s with
    | Some (a, b) => Ok {| mysql.DBName := b; mysql.TLSConfig := EmptyString; mysql.rest := a |}
    | None => Fail (err_other "invalid DSN: missing the slash separating the database name")
    end;
  FormatDSN := λ c,
    mysql.rest c +:+ mysql.DBName c +:+
    (if String.eqb (mysql.TLSConfig c) EmptyString then EmptyString
     else "?tls=" +:+ mysql.TLSConfig c);
  RegisterTLSConfig := λ _ _ w, (err_nil, w);
  Getenv := λ key _,
    if String.eqb key "KINE_SCHEMA_MIGRATION" then env else EmptyString;
  ClientConfig := λ tls w,
    (Ok (if tls then Some {| MinVersion := 0; tls_rest := tt |} else None), w);
  generic_Open := λ _ dsn _ _ _ _ _ w,
    (Ok {| LastInsertID := false; GetSizeSQL := EmptyString; CompactSQL := EmptyString;
           TranslateErr := λ e, e; ErrCode := λ _, EmptyString;
           DB_ := dsn; generic_rest := tt |}, w);
  generic_Migrate := λ _ w, w;
  logstructured_New := λ d, d;
  ErrKeyExists := err_other "key exists"
|}.

Definition script (env : string) (l : list error) (b : bool) : @State (scripted env) :=
  {| world := ({| answers := l; found := b |} : @W (scripted env));
     execs := [] |}.

(** A small log: the compact watermark, two keys, one of them deleted. *)
Definition row (key : string) (del : Z) (rev prev : N) : Row :=
  {| name := key; created := (if (prev =? 0)%N then 1 else 0); deleted := del;
     create_revision := rev; prev_revision := prev; lease := 0;
     value := []; old_value := [] |}.

Definition example_log : Table :=
  list_to_map
    [ (1%N, row compact_rev_key 0 0 3);
      (2%N, row "/a" 0 0 0);
      (3%N, row "/a" 0 2 2);
      (4%N, row "/b" 0 0 0);
      (5%N, row "/b" 1 4 4);
      (6%N, row "/a" 0 2 3) ].


(** The dialect as [generic.Open] of the scripted world returns it, and a
    configuration without data source and table name. *)
Definition example_dialect : Generic string unit :=
  {| LastInsertID := false; GetSizeSQL := EmptyString; CompactSQL := EmptyString;
     TranslateErr := λ e, e; ErrCode := λ _, EmptyString;
     DB_ := "root@unix(/var/run/mysqld/mysqld.sock)/kubernetes"; generic_rest := tt |}.

Definition example_cfg (tls : bool) (dsn table : string) : Config bool unit unit :=
  {| BackendTLSConfig := tls; DataSourceName := dsn; ConnectionPoolConfig := tt;
     MetricsRegisterer := tt; TableName := table |}.

Definition duplicate_key : error :=
  err_mysql {| mysql.Number := 1062; mysql.SQLState := "23000";
               mysql.Message := "Duplicate entry '/a-0' for key 'kine_name_prev_revision_uindex'" |}.

Definition duplicate_key_name : error :=
  err_mysql {| mysql.Number := 1061; mysql.SQLState := "42000";
               mysql.Message := "Duplicate key name 'kine_name_index'" |}.

Definition access_denied : error :=
  err_mysql {| mysql.Number := 1142; mysql.SQLState := "42000";
               mysql.Message := "CREATE command denied to user" |}.

(** ** More examples *)

(** A server that answers a statement by [answer], whatever was executed
    before; the rest is the scripted world. *)
Definition answering (env : string) (answer : string → error) : Extern := {|
  W := @W (scripted env);
  DB := @DB (scripted env);
  TLSRest := @TLSRest (scripted env);
  DSNRest := @DSNRest (scripted env);
  GenericRest := @GenericRest (scripted env);
  TLSSettings := @TLSSettings (scripted env);
  Pool := @Pool (scripted env);
  Metrics := @Metrics (scripted env);
  Backend := @Backend (scripted env);
  sql_Open := @sql_Open (scripted env);
  db_Close := @db_Close (scripted env);
  db_QueryRow_Scan := @db_QueryRow_Scan (scripted env);
  db_Exec := λ _ stmt w, (answer stmt, w);
  ParseDSN := @ParseDSN (scripted env);
  FormatDSN := @FormatDSN (scripted env);
  RegisterTLSConfig := @RegisterTLSConfig (scripted env);
  Getenv := @Getenv (scripted env);
  ClientConfig := @ClientConfig (scripted env);
  generic_Open := @generic_Open (scripted env);
  generic_Migrate := @generic_Migrate (scripted env);
  logstructured_New := @logstructured_New (scripted env);
  ErrKeyExists := @ErrKeyExists (scripted env)
|}.

(** The answers of a server on which the indexes exist already: error 1061
    for a CREATE INDEX, no error for any other statement. *)
Definition indexes_exist (stmt : string) : error :=
  match parse stmt with
  | Some (CreateIndex _ _ _ _) => duplicate_key_name
  | _ => err_nil
  end.

(** The error 1049 of MySQL, unknown database, after which
    [createDBIfNotExist] tries again without a database name. *)
Definition unknown_database (err : error) : Prop :=
  ∃ e, err = err_mysql e ∧ mysql.Number e = 1049%N.

(** The name of the index a statement creates. *)
Definition index_name (st : Statement) : option string :=
  match st with
  | CreateIndex _ i _ _ => Some i
  | CreateTable _ _ _ => None
  end.

Definition unknown_db : error :=
  err_mysql {| mysql.Number := 1049; mysql.SQLState := "42000";
               mysql.Message := "Unknown database 'kubernetes'" |}.

(** * Properties *)

(** ** The error translator and the error code *)

Lemma Sprint_not_empty (n : N) : Sprint n ≠ EmptyString.
Proof.
  unfold Sprint. destruct n as [|p]; [discriminate|].
  cbn [N.to_uint]. pose proof (Unsigned.to_uint_nonnil p) as Hnil.
  destruct (Pos.to_uint p); [congruence | discriminate..].
Qed.

(** Reading the printed number as a decimal numeral gives the number. *)
Lemma Sprint_decimal (n : N) :
  N.of_uint <$> NilZero.uint_of_string (Sprint n) = Some n.
Proof.
  unfold Sprint. rewrite NilZero.usu.
  - cbn. by rewrite DecimalN.Unsigned.of_to.
  - destruct n as [|p]; [discriminate|]. apply Unsigned.to_uint_nonnil.
Qed.

(** C2: the error translator of the dialect maps a MySQL error with number
    1062 (a unique-key violation) to [server.ErrKeyExists], and returns every
    other error, nil included, as it is. *)
Theorem TranslateErr_unique_violation `{Extern}
    (dialect : Generic DB GenericRest) (tableName : string) (err : error) :
  let translate := TranslateErr (configure dialect tableName) in
  (∀ e, err = err_mysql e → mysql.Number e = 1062%N → translate err = ErrKeyExists) ∧
  ((¬ ∃ e, err = err_mysql e ∧ mysql.Number e = 1062%N) → translate err = err).
Proof.
  cbn. unfold mysqlTranslateErr. split.
  - intros e -> Hn. cbn. by rewrite Hn.
  - intros Hno. destruct err as [|e|msg]; cbn; try done.
    destruct (N.eqb_spec (mysql.Number e) 1062) as [Hn|Hn]; [|done].
    destruct Hno. by exists e.
Qed.

(** C8, as the code has it: the error code of nil is the empty string, that
    of a MySQL error is its number in decimal, which is never empty, and
    that of any other error is its message; so the code is empty for nil
    and for an error of another type with an empty message, and for no
    other error. *)
Theorem ErrCode_cases `{Extern}
    (dialect : Generic DB GenericRest) (tableName : string) (err : error) :
  let code := ErrCode (configure dialect tableName) in
  (err = err_nil → code err = EmptyString) ∧
  (∀ e, err = err_mysql e →
        code err = Sprint (mysql.Number e) ∧
        N.of_uint <$> NilZero.uint_of_string (code err) = Some (mysql.Number e) ∧
        code err ≠ EmptyString) ∧
  (∀ msg, err = err_other msg → code err = msg) ∧
  (code err = EmptyString ↔ err = err_nil ∨ err = err_other EmptyString).
Proof.
  cbn. repeat split.
  - by intros ->.
  - by subst.
  - subst. apply Sprint_decimal.
  - subst. apply Sprint_not_empty.
  - by intros msg ->.
  - destruct err as [|e|msg]; cbn; intros Hc.
    + by left.
    + by apply Sprint_not_empty in Hc.
    + right. by rewrite Hc.
  - by intros [->| ->].
Qed.

Lemma TranslateErr_unique_violation_witness :
  TranslateErr (configure (H:=scripted "1") example_dialect "kine") duplicate_key
    = err_other "key exists" ∧
  TranslateErr (configure (H:=scripted "1") example_dialect "kine") duplicate_key_name
    = duplicate_key_name ∧
  TranslateErr (configure (H:=scripted "1") example_dialect "kine") err_nil = err_nil.
Proof.
  split; [|split].
  - eapply (proj1 (TranslateErr_unique_violation (H:=scripted "1") example_dialect "kine" duplicate_key));
      reflexivity.
  - apply (proj2 (TranslateErr_unique_violation (H:=scripted "1") example_dialect "kine" duplicate_key_name)).
    intros [e [He Hn]]. injection He as <-. discriminate Hn.
  - apply (proj2 (TranslateErr_unique_violation (H:=scripted "1") example_dialect "kine" err_nil)).
    intros [e [He _]]. discriminate He.
Defined.

Lemma ErrCode_cases_witness :
  ErrCode (configure (H:=scripted "1") example_dialect "kine") duplicate_key = "1062" ∧
  ErrCode (configure (H:=scripted "1") example_dialect "kine") (err_other "bad connection")
    = "bad connection".
Proof.
  split.
  - apply (proj1 (proj2 (ErrCode_cases (H:=scripted "1") example_dialect "kine" duplicate_key)) _ eq_refl).
  - apply (proj1 (proj2 (proj2 (ErrCode_cases (H:=scripted "1") example_dialect "kine"
                                   (err_other "bad connection")))) _ eq_refl).
Defined.

(** C8 as stated fails: an error that is not nil and whose message is
    empty, such as [errors.New] of the empty string, has the empty code. *)
Lemma ErrCode_empty_not_nil :
  ¬ (∀ err, mysqlErrCode err = EmptyString ↔ err = err_nil).
Proof.
  intros Hall. by specialize (proj1 (Hall (err_other EmptyString)) eq_refl).
Qed.

(** ** Runs of statements *)

Lemma fatal_passed_over (err : error) :
  negb (is_nil err) && fatal 1061 err = false ↔ passed_over err.
Proof.
  unfold passed_over, duplicate_index. destruct err as [|e|msg]; cbn.
  - split; [by left|done].
  - destruct (N.eqb_spec (mysql.Number e) 1061) as [Hn|Hn]; cbn; split.
    + intros _. right. by exists e.
    + done.
    + done.
    + intros [?|[e' [[= <-] ?]]]; done.
  - split; [done|]. intros [?|[e [? _]]]; discriminate.
Qed.

Lemma passed_over_nil : passed_over err_nil.
Proof. by left. Qed.

Section Runs.
Context `{Extern}.
Implicit Types (db : DB) (stmts : list string) (calls : list ExecCall) (s : State).

Lemma ran_nil db : ran db [] [] err_nil.
Proof. split; [constructor|]. left. by repeat split. Qed.

Lemma ran_cons_pass db stmt e stmts calls err :
  passed_over e →
  ran db stmts calls err →
  ran db (stmt :: stmts)
      ({| exec_db := db; exec_stmt := stmt; exec_err := e |} :: calls) err.
Proof.
  intros He [Hdb Hrun]. split; [by constructor|].
  destruct Hrun as [(Herr & Hst & Hall)|(Hne & calls0 & c & stmts' & Hc & Hst & Hall & Hlast & Hno)].
  - left. subst. split; [done|]. split; [done|]. by constructor.
  - right. split; [done|]. subst calls stmts.
    exists ({| exec_db := db; exec_stmt := stmt; exec_err := e |} :: calls0), c, stmts'.
    split; [done|]. split; [done|]. split; [by constructor|done].
Qed.

Lemma ran_cons_stop db stmt e stmts :
  ¬ passed_over e →
  ran db (stmt :: stmts) [{| exec_db := db; exec_stmt := stmt; exec_err := e |}] e.
Proof.
  intros He. split; [by repeat constructor|]. right. split.
  - intros ->. apply He, passed_over_nil.
  - by exists [], {| exec_db := db; exec_stmt := stmt; exec_err := e |}, stmts.
Qed.

Lemma ran_app db stmts1 stmts2 calls1 calls2 err :
  ran db stmts1 calls1 err_nil →
  ran db stmts2 calls2 err →
  ran db (stmts1 ++ stmts2) (calls1 ++ calls2) err.
Proof.
  intros [Hdb1 Hrun1] Hrun2.
  destruct Hrun1 as [(_ & Hst & Hall)|(Hne & _)]; [|done]. subst stmts1.
  induction calls1 as [|[db' stmt e] calls1 IH]; [done|].
  apply Forall_cons in Hdb1 as [Hd Hdb1']. apply Forall_cons in Hall as [He Hall'].
  cbn in Hd, He. subst db'. cbn. apply ran_cons_pass; auto.
Qed.

(** A run that stopped says the same of a longer list of statements. *)
Lemma ran_app_stop db stmts1 stmts2 calls err :
  err ≠ err_nil →
  ran db stmts1 calls err →
  ran db (stmts1 ++ stmts2) calls err.
Proof.
  intros Hne [Hdb Hrun]. split; [done|]. right. split; [done|].
  destruct Hrun as [(Herr & _)|(_ & calls0 & c & stmts' & Hc & Hst & Hall & Hlast & Hno)]; [done|].
  exists calls0, c, (stmts' ++ stmts2). subst stmts1.
  split; [done|]. split; [|done]. by rewrite <- app_assoc.
Qed.

Lemma Exec_execs db stmt s :
  execs (Exec db stmt s).2 =
  execs s ++ [{| exec_db := db; exec_stmt := stmt; exec_err := (Exec db stmt s).1 |}].
Proof. unfold Exec. by destruct (db_Exec db stmt (world s)). Qed.

Lemma call_execs {A} (f : W → A * W) s : execs (call f s).2 = execs s.
Proof. unfold call. by destruct (f (world s)). Qed.

Lemma execSchema_ran db stmts s :
  ∃ calls,
    execs (execSchema db stmts s).2 = execs s ++ calls ∧
    ran db stmts calls (default err_nil (execSchema db stmts s).1).
Proof.
  revert s. induction stmts as [|stmt stmts IH]; intros s.
  - exists []. split; [by rewrite app_nil_r|apply ran_nil].
  - cbn [execSchema]. unfold mbind, M_bind.
    pose proof (Exec_execs db stmt s) as Hex.
    destruct (Exec db stmt s) as [e s1]. cbn [fst snd] in Hex.
    destruct (negb (is_nil e) && fatal 1061 e) eqn:Hf.
    + eexists. split; [exact Hex|]. cbn. apply ran_cons_stop.
      rewrite <- fatal_passed_over. by rewrite Hf.
    + destruct (IH s1) as (calls & Hcalls & Hran).
      exists ({| exec_db := db; exec_stmt := stmt; exec_err := e |} :: calls). split.
      * rewrite Hcalls, Hex. by rewrite <- app_assoc.
      * apply ran_cons_pass; [by apply fatal_passed_over|done].
Qed.

Lemma execMigrations_ran db level i stmts s :
  ∃ calls,
    execs (execMigrations db level i stmts s).2 = execs s ++ calls ∧
    ran db (filter (λ stmt, stmt ≠ EmptyString) (take (Z.to_nat (level - i)) stmts)) calls
        (default err_nil (execMigrations db level i stmts s).1).
Proof.
  revert i s. induction stmts as [|stmt stmts IH]; intros i s.
  - exists []. split; [by rewrite app_nil_r|]. rewrite take_nil. apply ran_nil.
  - cbn [execMigrations]. destruct (Z.geb_spec i level) as [Hge|Hlt].
    + exists []. split; [by rewrite app_nil_r|].
      replace (Z.to_nat (level - i)) with 0%nat by lia. apply ran_nil.
    + replace (Z.to_nat (level - i)) with (S (Z.to_nat (level - (i + 1)))) by lia.
      cbn [take]. rewrite filter_cons.
      destruct (String.eqb_spec stmt EmptyString) as [Hempty|Hstmt].
      * rewrite decide_False by naive_solver. apply IH.
      * rewrite decide_True by done. unfold mbind, M_bind.
        pose proof (Exec_execs db stmt s) as Hex.
        destruct (Exec db stmt s) as [e s1]. cbn [fst snd] in Hex.
        destruct (negb (is_nil e) && fatal 1061 e) eqn:Hf.
        -- eexists. split; [exact Hex|]. cbn. apply ran_cons_stop.
           rewrite <- fatal_passed_over. by rewrite Hf.
        -- destruct (IH (i + 1)%Z s1) as (calls & Hcalls & Hran).
           exists ({| exec_db := db; exec_stmt := stmt; exec_err := e |} :: calls). split.
           ++ rewrite Hcalls, Hex. by rewrite <- app_assoc.
           ++ apply ran_cons_pass; [by apply fatal_passed_over|done].
Qed.

End Runs.
Section Setup.
Context `{Extern}.
Implicit Types (db : DB) (stmts : list string) (calls : list ExecCall) (s : State).

Lemma ran_stmts db stmts calls err c :
  ran db stmts calls err → c ∈ calls → exec_stmt c ∈ stmts.
Proof.
  intros [_ Hrun] Hc.
  destruct Hrun as [(_ & <- & _)|(_ & calls0 & c' & stmts' & -> & -> & _)].
  - by apply list_elem_of_fmap_2.
  - apply elem_of_app in Hc as [Hc|Hc%list_elem_of_singleton].
    + apply elem_of_app. left. by apply list_elem_of_fmap_2.
    + subst c'. apply elem_of_app. right. by left.
Qed.

Lemma migration0_not_empty tableName : Sprintf migration0Fmt [tableName] ≠ EmptyString.
Proof. intros Heq. vm_compute in Heq. discriminate Heq. Qed.

Lemma enabled_migrations_cases level tableName :
  enabled_migrations level tableName = [] ∧ (level ≤ 0)%Z ∨
  enabled_migrations level tableName = [Sprintf migration0Fmt [tableName]] ∧ (0 < level)%Z.
Proof.
  unfold enabled_migrations, getSchemaMigrations.
  destruct (Z.to_nat level) as [|[|n]] eqn:Hl.
  - left. split; [done|lia].
  - right. split; [|lia]. cbn [take].
    by rewrite filter_cons, decide_True by apply migration0_not_empty.
  - right. split; [|lia]. cbn [take].
    rewrite filter_cons, decide_True by apply migration0_not_empty.
    rewrite filter_cons, decide_False by (unfold migration1; tauto).
    by rewrite take_nil.
Qed.

Lemma migration_not_schema tableName stmt :
  stmt ∈ getSchemaMigrations tableName → stmt ∉ getSchema tableName.
Proof.
  intros Hm Hs.
  assert (∃ rest, stmt = String "C" rest) as [rest ->].
  { unfold getSchema in Hs.
    repeat (apply elem_of_cons in Hs as [->|Hs]; [by eexists|]).
    by apply elem_of_nil in Hs. }
  unfold getSchemaMigrations in Hm.
  repeat (apply elem_of_cons in Hm as [Hm|Hm]; [discriminate Hm|]).
  by apply elem_of_nil in Hm.
Qed.

Lemma enabled_migrations_sub level tableName stmt :
  stmt ∈ enabled_migrations level tableName → stmt ∈ getSchemaMigrations tableName.
Proof.
  unfold enabled_migrations. intros [_ Hin]%list_elem_of_filter.
  by apply (subseteq_take (Z.to_nat level)).
Qed.

Lemma execSchema_Some db stmts s err :
  (execSchema db stmts s).1 = Some err → err ≠ err_nil.
Proof.
  revert s. induction stmts as [|stmt stmts IH]; intros s; [done|].
  cbn [execSchema]. unfold mbind, M_bind. destruct (Exec db stmt s) as [e s1].
  destruct (negb (is_nil e) && fatal 1061 e) eqn:Hf; [|apply IH].
  cbn. intros [= <-] ->. done.
Qed.

Lemma setup_phases db tableName env s :
  (∀ w, Getenv "KINE_SCHEMA_MIGRATION" w = env) →
  ∃ sc mc e1,
    execs (setup db tableName s).2 = execs s ++ sc ++ mc ∧
    ran db (if table_found db tableName s then [] else getSchema tableName) sc e1 ∧
    ((e1 = err_nil ∧
      ran db (enabled_migrations (migration_level env) tableName) mc (setup db tableName s).1)
     ∨ (e1 ≠ err_nil ∧ mc = [] ∧ (setup db tableName s).1 = e1)).
Proof.
  intros Henv. unfold setup, table_found, mbind, M_bind, call.
  destruct (db_QueryRow_Scan db tableExistsQuery tableName (world s)) as [[qerr scanned] w1].
  cbn [fst snd].
  replace (if is_nil qerr then scanned else false) with (is_nil qerr && scanned)
    by by destruct (is_nil qerr).
  set (s1 := {| world := w1; execs := execs s |}).
  assert (∃ sc r s2,
    (if negb (is_nil qerr && scanned)
     then execSchema db (getSchema tableName) else mret None) s1 = (r, s2) ∧
    execs s2 = execs s ++ sc ∧
    (∀ err, r = Some err → err ≠ err_nil) ∧
    ran db (if is_nil qerr && scanned then [] else getSchema tableName) sc (default err_nil r))
    as (sc & r & s2 & -> & Hs2 & Hsome & Hran).
  { destruct (is_nil qerr && scanned); cbn [negb].
    - exists [], None, s1. rewrite app_nil_r. split; [done|]. split; [done|].
      split; [done|]. apply ran_nil.
    - destruct (execSchema_ran db (getSchema tableName) s1) as (sc & Hsc & Hr).
      pose proof (execSchema_Some db (getSchema tableName) s1) as Hsome.
      destruct (execSchema db (getSchema tableName) s1) as [r s2]. by exists sc, r, s2. }
  destruct r as [err|]; cbn [default] in Hran.
  - exists sc, [], err. rewrite app_nil_r. split; [done|]. split; [done|]. right.
    split; [by apply Hsome|done].
  - rewrite Henv. fold (migration_level env).
    destruct (execMigrations_ran db (migration_level env) 0
                (getSchemaMigrations tableName) {| world := world s2; execs := execs s2 |})
      as (mc & Hmc & Hr).
    rewrite Z.sub_0_r in Hr. fold (enabled_migrations (migration_level env) tableName) in Hr.
    destruct (execMigrations db (migration_level env) 0 (getSchemaMigrations tableName)
                {| world := world s2; execs := execs s2 |}) as [r s3].
    cbn in Hmc. cbn [fst snd] in *. exists sc, mc, err_nil.
    split; [by destruct r; cbn; rewrite Hmc, Hs2, <- app_assoc|].
    split; [done|]. left. split; [done|]. by destruct r.
Qed.

End Setup.

(** ** [setup] *)

(** C10: [setup] leaves an existing schema alone and passes over
    duplicate-index errors.  The calls of [db.Exec] it makes are a run of
    the statements it is to execute (see [ran]): when the existence query
    found the table, no statement of [getSchema] is among them; an error
    of a statement that is nil or the MySQL error 1061 does not stop the
    run; any other error ends it and is the error [setup] returns; and
    [setup] returns nil only when every statement was executed and every
    error was passed over. *)
Theorem setup_existing_schema_and_errors `{Extern}
    (db : DB) (tableName env : string) (s : State) :
  (∀ w, Getenv "KINE_SCHEMA_MIGRATION" w = env) →
  ∃ calls,
    execs (setup db tableName s).2 = execs s ++ calls ∧
    ran db (setup_statements (table_found db tableName s) (migration_level env) tableName)
        calls (setup db tableName s).1 ∧
    (table_found db tableName s = true →
     ∀ c, c ∈ calls → exec_stmt c ∉ getSchema tableName).
Proof.
  intros Henv.
  destruct (setup_phases db tableName env s Henv) as (sc & mc & e1 & Hex & Hsc & Hmc).
  exists (sc ++ mc). split; [done|].
  assert (ran db (setup_statements (table_found db tableName s) (migration_level env) tableName)
              (sc ++ mc) (setup db tableName s).1) as Hran.
  { unfold setup_statements. destruct Hmc as [(-> & Hmc)|(Hne & -> & ->)].
    - by apply ran_app.
    - rewrite app_nil_r. by apply ran_app_stop. }
  split; [done|]. intros Hfound c Hc.
  eapply ran_stmts in Hc; [|exact Hran].
  unfold setup_statements in Hc. rewrite Hfound in Hc. cbn in Hc.
  by apply migration_not_schema, (enabled_migrations_sub (migration_level env)).
Qed.

Lemma setup_existing_schema_and_errors_witness :
  let s := script "1" [err_nil; duplicate_key_name; access_denied] false in
  let db := "root@unix(/var/run/mysqld/mysqld.sock)/kubernetes" in
  ∃ calls,
    execs (setup (H:=scripted "1") db "kine" s).2 = execs s ++ calls ∧
    ran (H:=scripted "1") db
        (setup_statements (table_found (H:=scripted "1") db "kine" s) (migration_level "1") "kine")
        calls (setup (H:=scripted "1") db "kine" s).1 ∧
    (table_found (H:=scripted "1") db "kine" s = true →
     ∀ c, c ∈ calls → exec_stmt c ∉ getSchema "kine").
Proof.
  intros s db.
  apply (setup_existing_schema_and_errors (H:=scripted "1") db "kine" "1" s).
  intros w. reflexivity.
Defined.

(** What the run of the scripted server above is: the table is created,
    the duplicate index is passed over, the third statement is denied and
    [setup] returns that error without executing a fourth. *)
Example setup_aborts :
  let r := setup (H:=scripted "1") "db" "kine"
             (script "1" [err_nil; duplicate_key_name; access_denied] false) in
  r.1 = access_denied ∧
  exec_stmt <$> execs r.2 = take 3 (getSchema "kine") ∧
  exec_err <$> execs r.2 = [err_nil; duplicate_key_name; access_denied].
Proof. vm_compute. done. Qed.

(** When nothing goes wrong and the level is in the range of [int], the
    migrations executed are the non-empty statements among the first [n]
    of the list, whatever the errors of the schema statements passed over
    before; a schema statement that fails leaves them all out. *)
Lemma setup_migrations_in_range `{Extern}
    (db : DB) (tableName env : string) (s : State) (n : N) :
  (∀ w, Getenv "KINE_SCHEMA_MIGRATION" w = env) →
  (ParseUint env).1 = n →
  (n < 2 ^ 63)%N →
  ∃ sc mc e1,
    execs (setup db tableName s).2 = execs s ++ sc ++ mc ∧
    ran db (if table_found db tableName s then [] else getSchema tableName) sc e1 ∧
    (e1 = err_nil →
     exec_stmt <$> mc =
       filter (λ stmt, stmt ≠ EmptyString) (take (N.to_nat n) (getSchemaMigrations tableName))) ∧
    (e1 ≠ err_nil → mc = []).
Proof.
  intros Henv Hn Hrange.
  destruct (setup_phases db tableName env s Henv) as (sc & mc & e1 & Hex & Hsc & Hmc).
  exists sc, mc, e1. split; [done|]. split; [done|].
  assert (migration_level env = Z.of_N n) as Hlevel.
  { unfold migration_level, int_of_uint64. rewrite Hn.
    rewrite Z.mod_small; [lia|]. split; [lia|].
    change (2 ^ 64)%Z with (2 ^ 63 + 2 ^ 63)%Z.
    assert (Z.of_N n < 2 ^ 63)%Z; [|lia].
    change (2 ^ 63)%Z with (Z.of_N (2 ^ 63)). lia. }
  split.
  - intros ->. destruct Hmc as [(_ & Hmc)|(Hne & _)]; [|done].
    rewrite Hlevel in Hmc.
    replace (N.to_nat n) with (Z.to_nat (Z.of_N n)) by lia.
    fold (enabled_migrations (Z.of_N n) tableName).
    destruct Hmc as [_ [(_ & Hall & _)|(_ & calls0 & c & stmts' & -> & Hst & _)]]; [done|].
    rewrite Hst, fmap_app. cbn.
    destruct (enabled_migrations_cases (Z.of_N n) tableName) as [[Hm _]|[Hm _]];
      rewrite Hm in Hst.
    + by destruct (exec_stmt <$> calls0).
    + destruct (exec_stmt <$> calls0) as [|? [|? ?]]; [|done..].
      injection Hst as _ <-. done.
  - intros Hne. by destruct Hmc as [(-> & _)|(_ & -> & _)].
Qed.

(** C4 fails at a level past the range of [int]: with
    KINE_SCHEMA_MIGRATION=9223372036854775808 the level read is 2^63, the
    first entry of the migration list is a statement and is among the first
    2^63, and [setup] executes nothing when the table exists. *)
Theorem setup_migration_level_overflow `{Extern} (db : DB) (tableName : string) (s : State) :
  (∀ w, Getenv "KINE_SCHEMA_MIGRATION" w = "9223372036854775808") →
  table_found db tableName s = true →
  ParseUint "9223372036854775808" = (2 ^ 63, None)%N ∧
  (∃ stmt, getSchemaMigrations tableName !! 0%nat = Some stmt ∧ stmt ≠ EmptyString) ∧
  execs (setup db tableName s).2 = execs s ∧
  (setup db tableName s).1 = err_nil.
Proof.
  intros Henv Hfound. split; [by vm_compute|]. split.
  { eexists. split; [done|]. apply migration0_not_empty. }
  destruct (setup_phases db tableName _ s Henv) as (sc & mc & e1 & Hex & Hsc & Hmc).
  rewrite Hfound in Hsc.
  destruct Hsc as [_ [(-> & Hsc & _)|(_ & calls0 & c & stmts' & _ & Hst & _)]];
    [|by destruct (exec_stmt <$> calls0)].
  apply fmap_nil_inv in Hsc as ->.
  destruct Hmc as [(_ & Hmc)|(Hne & _)]; [|done].
  change (migration_level "9223372036854775808") with (- 2 ^ 63)%Z in Hmc.
  destruct (enabled_migrations_cases (- 2 ^ 63) tableName) as [[Hm _]|[_ Hlt]]; [|done].
  rewrite Hm in Hmc.
  destruct Hmc as [_ [(-> & Hmc & _)|(_ & calls0 & c & stmts' & _ & Hst & _)]];
    [|by destruct (exec_stmt <$> calls0)].
  apply fmap_nil_inv in Hmc as ->. by rewrite app_nil_r in Hex.
Qed.

Lemma setup_migration_level_overflow_witness :
  let s := script "9223372036854775808" [] true in
  ParseUint "9223372036854775808" = (2 ^ 63, None)%N ∧
  (∃ stmt, getSchemaMigrations "kine" !! 0%nat = Some stmt ∧ stmt ≠ EmptyString) ∧
  execs (setup (H:=scripted "9223372036854775808") "db" "kine" s).2 = execs s ∧
  (setup (H:=scripted "9223372036854775808") "db" "kine" s).1 = err_nil.
Proof.
  intros s.
  apply (setup_migration_level_overflow (H:=scripted "9223372036854775808") "db" "kine" s).
  - intros w. reflexivity.
  - reflexivity.
Defined.

(** A value past 64 bits is read as the largest [uint64], which is -1 as
    an [int]: no migration is enabled either. *)
Example migration_level_out_of_range :
  ParseUint "99999999999999999999" = (maxUint64, Some ErrRange) ∧
  migration_level "99999999999999999999" = (-1)%Z ∧
  migration_level "2" = 2%Z ∧
  migration_level "x" = 0%Z.
Proof. by vm_compute. Qed.

(** ** [prepareDSN] *)



(** The strings returned in the scripted world, where a DSN is formatted
    as it was parsed: the defaults with the database "kubernetes", and a
    DSN that names a database as it is. *)
Example prepareDSN_examples :
  (prepareDSN (H:=scripted "1") EmptyString None (script "1" [] false)).1
    = ("root@unix(/var/run/mysqld/mysqld.sock)/kubernetes", err_nil) ∧
  (prepareDSN (H:=scripted "1") EmptyString (Some {| MinVersion := 770; tls_rest := tt |})
              (script "1" [] false)).1
    = ("root@tcp(127.0.0.1)/kubernetes?tls=kine", err_nil) ∧
  (prepareDSN (H:=scripted "1") "kine@tcp(db:3306)/k3s" None (script "1" [] false)).1
    = ("kine@tcp(db:3306)/k3s", err_nil) ∧
  (prepareDSN (H:=scripted "1") "kine" None (script "1" [] false)).1
    = (EmptyString, err_other "invalid DSN: missing the slash separating the database name").
Proof. by vm_compute. Qed.


(** ** [New] *)

(** The path of [New] that returns a backend: [generic.Open] returned a
    dialect, its fields were assigned, and [setup] returned nil on its
    connection pool. *)
Lemma New_success `{Extern} (cfg : Config TLSSettings Pool Metrics) (s : State)
    (backend : Backend) :
  (New cfg s).1 = (true, Some backend, err_nil) →
  ∃ parsedDSN dialect0 s1 s2,
    (call (generic_Open "mysql" parsedDSN (ConnectionPoolConfig cfg) "?" false
             (MetricsRegisterer cfg) (TableName cfg)) s1) = (Ok dialect0, s2) ∧
    (setup (DB_ dialect0) (tableNameOf cfg) s2).1 = err_nil ∧
    execs (New cfg s).2 = execs (setup (DB_ dialect0) (tableNameOf cfg) s2).2 ∧
    backend = logstructured_New (configure dialect0 (tableNameOf cfg)).
Proof.
  unfold New, mbind, M_bind.
  destruct (call (ClientConfig (BackendTLSConfig cfg)) s) as [[tlsConfig|err] s0]; [|done].
  match goal with |- context [prepareDSN ?d ?t s0] =>
    destruct (prepareDSN d t s0) as [[parsedDSN err] s0'] end.
  destruct (is_nil err); [|done]. cbn [negb].
  destruct (createDBIfNotExist parsedDSN s0') as [err' s1].
  destruct (is_nil err'); [|done]. cbn [negb].
  destruct (call (generic_Open "mysql" parsedDSN (ConnectionPoolConfig cfg) "?" false
                    (MetricsRegisterer cfg) (TableName cfg)) s1) as [[dialect0|err''] s2] eqn:Hopen;
    [|done].
  cbn [DB_ configure].
  destruct (setup (DB_ dialect0) (tableNameOf cfg) s2) as [e s3] eqn:Hsetup.
  destruct e; [|done..]. cbn [is_nil negb].
  pose proof (call_execs (λ w, (tt, generic_Migrate (configure dialect0 (tableNameOf cfg)) w)) s3)
    as Hm.
  destruct (call (λ w, (tt, generic_Migrate (configure dialect0 (tableNameOf cfg)) w)) s3)
    as [[] s4].
  cbn [fst snd] in *. intros [= <-]. exists parsedDSN, dialect0, s1, s2.
  split; [done|]. rewrite ?Hsetup. cbn [fst snd]. split; [done|]. split; [|done].
  unfold mret, M_ret. cbn [snd]. exact Hm.
Qed.


(** C6: when [New] returns a backend, its dialect is the one returned by
    [generic.Open] called for the driver "mysql" with the parameter
    character "?", not numbered, and its [LastInsertID] is true. *)
Theorem New_last_insert_id_and_placeholder `{Extern}
    (cfg : Config TLSSettings Pool Metrics) (s : State) (backend : Backend) :
  (New cfg s).1 = (true, Some backend, err_nil) →
  ∃ parsedDSN dialect0 dialect w w',
    generic_Open "mysql" parsedDSN (ConnectionPoolConfig cfg) "?" false
                 (MetricsRegisterer cfg) (TableName cfg) w = (Ok dialect0, w') ∧
    dialect = configure dialect0 (tableNameOf cfg) ∧
    backend = logstructured_New dialect ∧
    LastInsertID dialect = true ∧
    generic_rest dialect = generic_rest dialect0 ∧
    DB_ dialect = DB_ dialect0.
Proof.
  intros Hnew.
  destruct (New_success cfg s backend Hnew) as (dsn & d0 & s1 & s2 & Hopen & _ & _ & ->).
  unfold call in Hopen.
  destruct (generic_Open "mysql" dsn (ConnectionPoolConfig cfg) "?" false
              (MetricsRegisterer cfg) (TableName cfg) (world s1)) as [r w'] eqn:Hopen'.
  injection Hopen as -> _.
  by exists dsn, d0, (configure d0 (tableNameOf cfg)), (world s1), w'.
Qed.


(** With a table name configured, the statements name that table. *)
Example New_configured_table :
  let r := New (H:=scripted "1") (example_cfg false EmptyString "registry")
               (script "1" [] false) in
  (∃ d, r.1 = (true, Some d, err_nil) ∧
        GetSizeSQL d = Sprintf getSizeFmt ["registry"] ∧
        CompactSQL d = Sprintf compactFmt ["registry"; "registry"; "registry"]) ∧
  exec_stmt <$> execs r.2 =
    Sprintf createDB ["kubernetes"] :: getSchema "registry" ++ [Sprintf migration0Fmt ["registry"]].
Proof. split; [eexists; split; [by vm_compute|]|]; by vm_compute. Qed.

Lemma New_last_insert_id_and_placeholder_witness :
  let cfg := example_cfg false EmptyString EmptyString in
  ∃ parsedDSN dialect0 dialect w w',
    generic_Open (Extern:=scripted "1") "mysql" parsedDSN (ConnectionPoolConfig cfg) "?" false
                 (MetricsRegisterer cfg) (TableName cfg) w = (Ok dialect0, w') ∧
    dialect = configure (H:=scripted "1") dialect0 (tableNameOf (H:=scripted "1") cfg) ∧
    configure (H:=scripted "1") example_dialect "kine"
      = logstructured_New (Extern:=scripted "1") dialect ∧
    LastInsertID dialect = true ∧
    generic_rest dialect = generic_rest dialect0 ∧
    DB_ dialect = DB_ dialect0.
Proof.
  intros cfg.
  apply (New_last_insert_id_and_placeholder (H:=scripted "1") cfg (script "1" [] true)
           (configure (H:=scripted "1") example_dialect "kine")).
  reflexivity.
Defined.


(** ** The compaction statement *)

Section Compaction.
Implicit Types (t : Table) (i j : N) (r : Row).

Lemma elem_of_select_prev_revisions t p1 i :
  i ∈ select_prev_revisions t p1 ↔
  ∃ j p, t !! j = Some p ∧ name p ≠ compact_rev_key ∧ prev_revision p ≠ 0%N ∧
         (Z.of_N j ≤ p1)%Z ∧ prev_revision p = i.
Proof.
  unfold select_prev_revisions. rewrite list_elem_of_fmap. split.
  - intros [[j p] [-> [(Hn & Hp & Hj) Hin]%list_elem_of_filter]].
    apply elem_of_map_to_list in Hin. by exists j, p.
  - intros (j & p & Hin & Hn & Hp & Hj & <-). exists (j, p). split; [done|].
    apply list_elem_of_filter. split; [done|]. by apply elem_of_map_to_list.
Qed.

Lemma elem_of_select_deleted t p2 i :
  i ∈ select_deleted t p2 ↔
  ∃ r, t !! i = Some r ∧ deleted r ≠ 0%Z ∧ (Z.of_N i ≤ p2)%Z.
Proof.
  unfold select_deleted. rewrite list_elem_of_fmap. split.
  - intros [[j r] [-> [(Hd & Hj) Hin]%list_elem_of_filter]].
    apply elem_of_map_to_list in Hin. by exists r.
  - intros (r & Hin & Hd & Hj). exists (i, r). split; [done|].
    apply list_elem_of_filter. split; [done|]. by apply elem_of_map_to_list.
Qed.




End Compaction.


Lemma example_log_rows (j : N) (p : Row) :
  example_log !! j = Some p →
  (j, p) ∈ [ (1%N, row compact_rev_key 0 0 3); (2%N, row "/a" 0 0 0);
             (3%N, row "/a" 0 2 2); (4%N, row "/b" 0 0 0);
             (5%N, row "/b" 1 4 4); (6%N, row "/a" 0 2 3) ].
Proof.
  intros Hj. unfold example_log in Hj. apply elem_of_list_to_map in Hj; [done|].
  apply (bool_decide_unpack _). by vm_compute.
Qed.

Ltac example_rows H :=
  apply example_log_rows in H;
  repeat (apply elem_of_cons in H as [[= -> ->]|H]);
  [..|by apply elem_of_nil in H].

Lemma example_log_wf : log_wf example_log.
Proof.
  split.
  - by vm_compute.
  - intros j p Hj Hn. example_rows Hj; try done; cbn; lia.
  - intros j p r Hj Hn. example_rows Hj; try done; vm_compute; by intros [= <-].
  - intros i r Hi Hn. by example_rows Hi.
Qed.


(** Compaction of the example up to revision 5: row 2 is superseded by row
    3 and row 4 by the tombstone 5, which goes too; row 3 stays, since the
    row that supersedes it is later than the target, and so do the live row
    6 and the watermark. *)
Example compact_example_log :
  compact example_log 5 =
    list_to_map [ (1%N, row compact_rev_key 0 0 3); (3%N, row "/a" 0 2 2);
                  (6%N, row "/a" 0 2 3) ] ∧
  live example_log 6 (row "/a" 0 2 3).
Proof.
  split; [by vm_compute|].
  split; [by vm_compute|]. split; [done|]. split.
  - intros j q Hj _ _. example_rows Hj; lia.
  - intros j q Hj Hlt. example_rows Hj; lia.
Qed.

(** ** The size statement *)






(** ** The schema *)

Lemma append_empty (s : string) : EmptyString +:+ s = s.
Proof. reflexivity. Qed.

Lemma append_cons (c : ascii) (w s : string) : String c w +:+ s = String c (w +:+ s).
Proof. reflexivity. Qed.

(** A word in front of a text is read as one piece, up to the end of the
    word that starts the text. *)
Lemma lexR_word (w s : string) :
  Forall (λ c, word_char c = true) (list_ascii_of_string w) →
  lexR (w +:+ s) = ((w +:+ (lexR s).1), (lexR s).2).
Proof.
  induction w as [|c w IH]; cbn [list_ascii_of_string].
  - intros _. rewrite !append_empty. by destruct (lexR s).
  - intros [Hc Hw]%Forall_cons. rewrite !append_cons. cbn [lexR]. rewrite (IH Hw).
    unfold word_char in Hc. apply andb_prop in Hc as [Hb Hp].
    unfold lex_step. cbn [fst snd].
    destruct (is_blank c); [done|]. destruct (punctuation c); [done|]. done.
Qed.

Lemma append_empty_r (s : string) : s +:+ EmptyString = s.
Proof. induction s as [|c s IH]; [done|]. by rewrite append_cons, IH. Qed.

(** Reading a statement whose format has been unfolded: the words made of
    the table name are read by [lexR_word], the rest by evaluation. *)
Ltac read_statement tableName Hword :=
  unfold parse, lex;
  repeat (cbn [lexR]; rewrite ?(lexR_word tableName) by exact Hword);
  destruct tableName; [done|]; vm_compute;
  repeat f_equal; apply append_empty_r.

(** C3: for every table name, the statements of [getSchema] are the same
    six texts around that name: one CREATE TABLE and five CREATE INDEX, the
    last one UNIQUE.  Read back, for a table name that is one word, they
    are, in this order: the creation of one table of that name with the
    columns id, name, created, deleted, create_revision, prev_revision,
    lease, value and old_value and the primary key (id); an index on
    (name), on (name, id), on (id, deleted) and on (prev_revision); and a
    unique index on (name, prev_revision). *)
Theorem getSchema_table_and_indexes :
  ∃ body : string,
    (∀ tableName,
       getSchema tableName =
       [ "CREATE TABLE IF NOT EXISTS " +:+ tableName +:+ body;
         "CREATE INDEX " +:+ tableName +:+ "_name_index ON " +:+ tableName +:+ " (name)";
         "CREATE INDEX " +:+ tableName +:+ "_name_id_index ON " +:+ tableName +:+ " (name,id)";
         "CREATE INDEX " +:+ tableName +:+ "_id_deleted_index ON " +:+ tableName
           +:+ " (id,deleted)";
         "CREATE INDEX " +:+ tableName +:+ "_prev_revision_index ON " +:+ tableName
           +:+ " (prev_revision)";
         "CREATE UNIQUE INDEX " +:+ tableName +:+ "_name_prev_revision_uindex ON " +:+ tableName
           +:+ " (name, prev_revision)" ]) ∧
    (∀ tableName,
       one_word tableName →
       parse <$> getSchema tableName =
       [ Some (CreateTable tableName
                 [ {| column_name := "id";
                      column_type := [T_word "BIGINT"; T_word "UNSIGNED";
                                      T_word "AUTO_INCREMENT"] |};
                   {| column_name := "name";
                      column_type := [T_word "VARCHAR"; T_lparen; T_word "630"; T_rparen;
                                      T_word "CHARACTER"; T_word "SET"; T_word "ascii"] |};
                   {| column_name := "created"; column_type := [T_word "INTEGER"] |};
                   {| column_name := "deleted"; column_type := [T_word "INTEGER"] |};
                   {| column_name := "create_revision";
                      column_type := [T_word "BIGINT"; T_word "UNSIGNED"] |};
                   {| column_name := "prev_revision";
                      column_type := [T_word "BIGINT"; T_word "UNSIGNED"] |};
                   {| column_name := "lease"; column_type := [T_word "INTEGER"] |};
                   {| column_name := "value"; column_type := [T_word "MEDIUMBLOB"] |};
                   {| column_name := "old_value"; column_type := [T_word "MEDIUMBLOB"] |} ]
                 ["id"]);
         Some (CreateIndex false (tableName +:+ "_name_index") tableName ["name"]);
         Some (CreateIndex false (tableName +:+ "_name_id_index") tableName ["name"; "id"]);
         Some (CreateIndex false (tableName +:+ "_id_deleted_index") tableName
                 ["id"; "deleted"]);
         Some (CreateIndex false (tableName +:+ "_prev_revision_index") tableName
                 ["prev_revision"]);
         Some (CreateIndex true (tableName +:+ "_name_prev_revision_uindex") tableName
                 ["name"; "prev_revision"]) ]).
Proof.
  eexists. split.
  - intros tableName. unfold getSchema.
    cbv [Sprintf createTableFmt nameIndexFmt nameIdIndexFmt idDeletedIndexFmt
         prevRevisionIndexFmt namePrevRevisionUindexFmt].
    reflexivity.
  - intros tableName [Hne Hw]. unfold getSchema. cbn [fmap list_fmap].
    repeat (f_equal; [|]).
    + cbv [Sprintf createTableFmt]. read_statement tableName Hw.
    + cbv [Sprintf nameIndexFmt]. read_statement tableName Hw.
    + cbv [Sprintf nameIdIndexFmt]. read_statement tableName Hw.
    + cbv [Sprintf idDeletedIndexFmt]. read_statement tableName Hw.
    + cbv [Sprintf prevRevisionIndexFmt]. read_statement tableName Hw.
    + cbv [Sprintf namePrevRevisionUindexFmt]. read_statement tableName Hw.
Qed.

Lemma getSchema_table_and_indexes_witness :
  parse <$> getSchema "kine" =
  [ Some (CreateTable "kine"
            [ {| column_name := "id";
                 column_type := [T_word "BIGINT"; T_word "UNSIGNED"; T_word "AUTO_INCREMENT"] |};
              {| column_name := "name";
                 column_type := [T_word "VARCHAR"; T_lparen; T_word "630"; T_rparen;
                                 T_word "CHARACTER"; T_word "SET"; T_word "ascii"] |};
              {| column_name := "created"; column_type := [T_word "INTEGER"] |};
              {| column_name := "deleted"; column_type := [T_word "INTEGER"] |};
              {| column_name := "create_revision";
                 column_type := [T_word "BIGINT"; T_word "UNSIGNED"] |};
              {| column_name := "prev_revision";
                 column_type := [T_word "BIGINT"; T_word "UNSIGNED"] |};
              {| column_name := "lease"; column_type := [T_word "INTEGER"] |};
              {| column_name := "value"; column_type := [T_word "MEDIUMBLOB"] |};
              {| column_name := "old_value"; column_type := [T_word "MEDIUMBLOB"] |} ]
            ["id"]);
    Some (CreateIndex false "kine_name_index" "kine" ["name"]);
    Some (CreateIndex false "kine_name_id_index" "kine" ["name"; "id"]);
    Some (CreateIndex false "kine_id_deleted_index" "kine" ["id"; "deleted"]);
    Some (CreateIndex false "kine_prev_revision_index" "kine" ["prev_revision"]);
    Some (CreateIndex true "kine_name_prev_revision_uindex" "kine" ["name"; "prev_revision"]) ].
Proof.
  destruct getSchema_table_and_indexes as [body [_ Hread]].
  apply (Hread "kine").
  split; [discriminate|]. repeat constructor.
Defined.

(** * Further properties *)

(** ** More on the compaction statement *)

Section CompactionSteps.
Implicit Types (t : Table) (i j : N) (r : Row).

Lemma elem_of_ks t p1 p2 i :
  i ∈ ks t p1 p2 ↔
  (∃ j p, t !! j = Some p ∧ name p ≠ compact_rev_key ∧ prev_revision p ≠ 0%N ∧
          (Z.of_N j ≤ p1)%Z ∧ prev_revision p = i) ∨
  (∃ r, t !! i = Some r ∧ deleted r ≠ 0%Z ∧ (Z.of_N i ≤ p2)%Z).
Proof.
  unfold ks. rewrite elem_of_union, !elem_of_list_to_set.
  by rewrite elem_of_select_prev_revisions, elem_of_select_deleted.
Qed.

Lemma CompactSQL_run_lookup t p1 p2 i r :
  CompactSQL_run t p1 p2 !! i = Some r ↔ t !! i = Some r ∧ i ∉ ks t p1 p2.
Proof. unfold CompactSQL_run. by rewrite map_lookup_filter_Some. Qed.

Lemma ks_mono t t' p1 p2 q1 q2 :
  t' ⊆ t → (p1 ≤ q1)%Z → (p2 ≤ q2)%Z → ks t' p1 p2 ⊆ ks t q1 q2.
Proof.
  intros Hsub H1 H2 i. rewrite !elem_of_ks.
  intros [(j & p & Hj & Hn & Hp & Hle & Hi)|(r & Hr & Hd & Hle)].
  - left. exists j, p. repeat split; try done; [|lia].
    by eapply lookup_weaken.
  - right. exists r. repeat split; try done; [|lia]. by eapply lookup_weaken.
Qed.

Lemma compact_subseteq t target : compact t target ⊆ t.
Proof. apply map_filter_subseteq. Qed.

End CompactionSteps.

(** Compacting again, up to the same or an earlier revision, deletes
    nothing more. *)
Theorem compact_again (t : Table) (a b : Z) :
  (b ≤ a)%Z → compact (compact t a) b = compact t a.
Proof.
  intros Hle. unfold compact at 1. unfold CompactSQL_run.
  apply map_filter_id. intros i r Hi. cbn.
  apply CompactSQL_run_lookup in Hi as [_ Hi]. intros Hin. apply Hi.
  revert Hin. apply ks_mono; [apply compact_subseteq|done..].
Qed.

(** On a log, compacting up to [a] and then up to a later [b] leaves the
    table that compacting up to [b] at once leaves. *)
Theorem compact_in_steps (t : Table) (a b : Z) :
  log_wf t → (a ≤ b)%Z → compact (compact t a) b = compact t b.
Proof.
  intros [_ Hearlier _ _] Hle. apply map_eq. intros i. apply option_eq. intros r.
  unfold compact. rewrite !CompactSQL_run_lookup. split.
  - intros [[Hi Ha] Hb]. split; [done|]. intros Hin. apply Hb.
    apply elem_of_ks in Hin as [(j & p & Hj & Hn & Hp & Hjb & Hpi)|(r' & Hr' & Hd & Hib)].
    + apply elem_of_ks. left. exists j, p. repeat split; try done.
      apply CompactSQL_run_lookup. split; [done|]. intros Hja. apply Ha.
      assert (Z.of_N j ≤ a)%Z as Hle_a.
      { apply elem_of_ks in Hja as [(k & q & Hk & Hqn & _ & Hka & Hqj)|(_ & _ & _ & ?)];
          [|done].
        specialize (Hearlier k q Hk Hqn). lia. }
      apply elem_of_ks. left. by exists j, p.
    + apply elem_of_ks. right. exists r'. repeat split; try done.
      apply CompactSQL_run_lookup. split; [done|]. congruence.
  - intros [Hi Hb]. split; [split; [done|]|].
    + intros Hin. apply Hb. revert Hin. by apply ks_mono.
    + intros Hin. apply Hb. revert Hin. apply ks_mono; [apply compact_subseteq|done..].
Qed.

Lemma compact_in_steps_witness :
  compact (compact example_log 3) 5 = compact example_log 5.
Proof. apply compact_in_steps; [exact example_log_wf|lia]. Defined.

Lemma compact_again_witness :
  compact (compact example_log 5) 3 = compact example_log 5.
Proof. apply compact_again. lia. Defined.



(** On a log, compaction up to [target] deletes no row with a later id, and
    deletes nothing at all when the target is before the first id. *)
Theorem compact_keeps_later_rows (t : Table) (target : Z) :
  log_wf t →
  (∀ i r, t !! i = Some r → (target < Z.of_N i)%Z → compact t target !! i = Some r) ∧
  ((target ≤ 0)%Z → compact t target = t).
Proof.
  intros [Hpos Hearlier _ _].
  assert (∀ i r, t !! i = Some r → (target < Z.of_N i)%Z → compact t target !! i = Some r)
    as Hlater.
  { intros i r Hi Hlt. apply CompactSQL_run_lookup. split; [done|]. intros Hin.
    apply elem_of_ks in Hin as [(j & p & Hj & Hn & _ & Hjt & Hpi)|(_ & _ & _ & ?)]; [|lia].
    specialize (Hearlier j p Hj Hn). lia. }
  split; [done|]. intros Hle. apply map_eq. intros i.
  destruct (t !! i) as [r|] eqn:Hi.
  - apply Hlater; [done|]. assert (i ≠ 0%N) by congruence. lia.
  - by eapply lookup_weaken_None, compact_subseteq.
Qed.

Lemma compact_keeps_later_rows_witness :
  (∀ i r, example_log !! i = Some r → (3 < Z.of_N i)%Z →
          compact example_log 3 !! i = Some r) ∧
  ((3 ≤ 0)%Z → compact example_log 3 = example_log).
Proof. apply compact_keeps_later_rows. exact example_log_wf. Defined.

(** ** More on the size statement *)



(** ** The migration level read from the environment *)

Lemma of_uint_cons_value (d : Decimal.uint) (k : N) (hd : Decimal.uint → Decimal.uint) :
  Unsigned.of_lu (hd Decimal.Nil) = k →
  (∀ d', Decimal.rev (hd d') = Decimal.revapp d' (hd Decimal.Nil)) →
  Pos.of_uint (hd d) = (Pos.of_uint d + k * 10 ^ Unsigned.usize d)%N.
Proof.
  intros Hk Hrev. rewrite !Unsigned.of_uint_alt, Hrev, Unsigned.of_lu_revapp, Hk.
  done.
Qed.

Lemma parseDigits_digit (c : ascii) (k : N) (s : string) (acc : N) :
  is_digit c = true → (N_of_ascii c - 48 = k)%N → (acc * 10 + k < 2 ^ 64)%N →
  parseDigits (String c s) acc = parseDigits s (acc * 10 + k).
Proof.
  intros Hc Hk Hlt. cbn [parseDigits]. rewrite Hc, Hk.
  assert ((cutoff64 <=? acc)%N = false) as ->.
  { apply N.leb_gt. change cutoff64 with 1844674407370955162%N.
    change (2 ^ 64)%N with 18446744073709551616%N in Hlt. lia. }
  rewrite N.mod_small by done.
  assert ((acc * 10 + k <? acc * 10)%N = false) as -> by (apply N.ltb_ge; lia).
  assert ((maxUint64 <? acc * 10 + k)%N = false) as ->; [|done].
  apply N.ltb_ge. change maxUint64 with 18446744073709551615%N.
  change (2 ^ 64)%N with 18446744073709551616%N in Hlt. lia.
Qed.

Ltac decimal_digit IH hd k :=
  let Hval := fresh "Hval" in
  let X := fresh "X" in
  intros acc Hlt;
  match goal with d : Decimal.uint |- _ =>
    pose proof (of_uint_cons_value d k hd eq_refl (λ _, eq_refl)) as Hval;
    cbn [Unsigned.usize] in *; rewrite N.pow_succ_r' in *; rewrite Hval in *;
    cbn [NilEmpty.string_of_uint];
    pose proof (N.pow_nonzero 10 (Unsigned.usize d) ltac:(done));
    set (X := (10 ^ Unsigned.usize d)%N) in *;
    rewrite (parseDigits_digit _ k) by (try reflexivity; nia);
    rewrite IH by nia; f_equal; nia
  end.

Lemma parseDigits_decimal (d : Decimal.uint) (acc : N) :
  (acc * 10 ^ Unsigned.usize d + Pos.of_uint d < 2 ^ 64)%N →
  parseDigits (NilEmpty.string_of_uint d) acc =
    ((acc * 10 ^ Unsigned.usize d + Pos.of_uint d)%N, None).
Proof.
  revert acc. induction d as [|d IH|d IH|d IH|d IH|d IH|d IH|d IH|d IH|d IH|d IH].
  - intros acc Hlt. cbn. by rewrite N.mul_1_r, N.add_0_r.
  - decimal_digit IH Decimal.D0 0%N.
  - decimal_digit IH Decimal.D1 1%N.
  - decimal_digit IH Decimal.D2 2%N.
  - decimal_digit IH Decimal.D3 3%N.
  - decimal_digit IH Decimal.D4 4%N.
  - decimal_digit IH Decimal.D5 5%N.
  - decimal_digit IH Decimal.D6 6%N.
  - decimal_digit IH Decimal.D7 7%N.
  - decimal_digit IH Decimal.D8 8%N.
  - decimal_digit IH Decimal.D9 9%N.
Qed.

(** Reading back the decimal digits of a 64-bit number gives the number,
    without error. *)
Lemma ParseUint_Sprint (n : N) :
  (n < 2 ^ 64)%N → ParseUint (Sprint n) = (n, None).
Proof.
  intros Hlt. unfold Sprint. destruct n as [|p]; [done|].
  cbn [N.to_uint]. pose proof (Unsigned.to_uint_nonnil p) as Hnil.
  pose proof (DecimalPos.Unsigned.of_to p) as Hof.
  pose proof (parseDigits_decimal (Pos.to_uint p) 0) as Hparse.
  rewrite Hof in Hparse. cbn [N.mul N.add] in Hparse. specialize (Hparse Hlt).
  destruct (Pos.to_uint p) eqn:Hd; [done|..]; exact Hparse.
Qed.

Lemma ParseUint_syntax (s : string) :
  (ParseUint s).2 = Some ErrSyntax → (ParseUint s).1 = 0%N.
Proof.
  assert (∀ s n, (parseDigits s n).2 = Some ErrSyntax → (parseDigits s n).1 = 0%N) as Hd.
  { clear s. induction s as [|c s IH]; intros n; [done|]. cbn [parseDigits].
    destruct (is_digit c); [|done]. destruct (cutoff64 <=? n)%N; [done|].
    match goal with |- context [orb ?a ?b] => destruct (orb a b) end; [done|]. apply IH. }
  destruct s; [done|]. apply Hd.
Qed.

(** ** More on [setup] *)

Section SetupCalls.
Context `{Extern}.
Implicit Types (db : DB) (stmts : list string) (calls : list ExecCall) (s : State).
Implicit Types (P : ExecCall → Prop).

Lemma getSchema_not_empty tableName stmt : stmt ∈ getSchema tableName → stmt ≠ EmptyString.
Proof.
  unfold getSchema. intros Hs.
  repeat (apply elem_of_cons in Hs as [->|Hs]; [by vm_compute|]).
  by apply elem_of_nil in Hs.
Qed.

Lemma Exec_answer db stmt s : (Exec db stmt s).1 = (db_Exec db stmt (world s)).1.
Proof. unfold Exec. by destruct (db_Exec db stmt (world s)). Qed.

(** What holds of every call of [db.Exec] on [db] with a statement of
    [stmts] and the answer of the server holds of the calls of the loop. *)
Lemma execSchema_calls P db stmts s :
  (∀ stmt w, stmt ∈ stmts →
     P {| exec_db := db; exec_stmt := stmt; exec_err := (db_Exec db stmt w).1 |}) →
  ∃ calls, execs (execSchema db stmts s).2 = execs s ++ calls ∧ Forall P calls.
Proof.
  revert s. induction stmts as [|stmt stmts IH]; intros s HP.
  - exists []. by rewrite app_nil_r.
  - cbn [execSchema]. unfold mbind, M_bind.
    pose proof (Exec_execs db stmt s) as Hex. pose proof (Exec_answer db stmt s) as Hans.
    pose proof (HP stmt (world s) ltac:(by left)) as HP1. rewrite <- Hans in HP1.
    destruct (Exec db stmt s) as [e s1]. cbn [fst snd] in *.
    destruct (negb (is_nil e) && fatal 1061 e).
    + eexists. split; [exact Hex|]. by constructor.
    + destruct (IH s1) as (calls & Hcalls & Hall).
      { intros stmt' w' Hin. apply HP. by right. }
      eexists (_ :: calls). split.
      * rewrite Hcalls, Hex. by rewrite <- app_assoc.
      * by constructor.
Qed.

Lemma execMigrations_calls P db level i stmts s :
  (∀ stmt w, stmt ∈ stmts → stmt ≠ EmptyString →
     P {| exec_db := db; exec_stmt := stmt; exec_err := (db_Exec db stmt w).1 |}) →
  ∃ calls, execs (execMigrations db level i stmts s).2 = execs s ++ calls ∧ Forall P calls.
Proof.
  revert i s. induction stmts as [|stmt stmts IH]; intros i s HP.
  - exists []. by rewrite app_nil_r.
  - cbn [execMigrations]. destruct (i >=? level)%Z.
    { exists []. by rewrite app_nil_r. }
    destruct (String.eqb_spec stmt EmptyString) as [Hempty|Hstmt].
    { apply IH. intros stmt' w' Hin. apply HP. by right. }
    unfold mbind, M_bind.
    pose proof (Exec_execs db stmt s) as Hex. pose proof (Exec_answer db stmt s) as Hans.
    pose proof (HP stmt (world s) ltac:(by left) Hstmt) as HP1. rewrite <- Hans in HP1.
    destruct (Exec db stmt s) as [e s1]. cbn [fst snd] in *.
    destruct (negb (is_nil e) && fatal 1061 e).
    + eexists. split; [exact Hex|]. by constructor.
    + destruct (IH (i + 1)%Z s1) as (calls & Hcalls & Hall).
      { intros stmt' w' Hin. apply HP. by right. }
      eexists (_ :: calls). split.
      * rewrite Hcalls, Hex. by rewrite <- app_assoc.
      * by constructor.
Qed.

Lemma setup_calls P db tableName s :
  (∀ stmt w, stmt ∈ getSchema tableName ∨ stmt ∈ getSchemaMigrations tableName →
     stmt ≠ EmptyString →
     P {| exec_db := db; exec_stmt := stmt; exec_err := (db_Exec db stmt w).1 |}) →
  ∃ calls, execs (setup db tableName s).2 = execs s ++ calls ∧ Forall P calls.
Proof.
  intros HP. unfold setup, mbind, M_bind, call.
  destruct (db_QueryRow_Scan db tableExistsQuery tableName (world s)) as [[qerr scanned] w1].
  set (s1 := {| world := w1; execs := execs s |}).
  assert (∃ sc, execs ((if negb (if is_nil qerr then scanned else false)
                        then execSchema db (getSchema tableName) else mret None) s1).2
                = execs s ++ sc ∧ Forall P sc) as (sc & Hsc & Hall).
  { destruct (negb _).
    - apply (execSchema_calls P db (getSchema tableName) s1).
      intros stmt w Hin. apply HP; [by left|by eapply getSchema_not_empty].
    - exists []. by rewrite app_nil_r. }
  destruct ((if negb (if is_nil qerr then scanned else false)
             then execSchema db (getSchema tableName) else mret None) s1) as [r s2].
  cbn [snd] in Hsc. destruct r as [err|].
  - by exists sc.
  - match goal with |- context [execMigrations db ?l 0 ?m ?s3] =>
      destruct (execMigrations_calls P db l 0 m s3) as (mc & Hmc & Hallm);
      [intros stmt w Hin; apply HP; by right|];
      destruct (execMigrations db l 0 m s3) as [r s4] end.
    cbn in Hmc. exists (sc ++ mc). split.
    + destruct r; cbn; by rewrite Hmc, Hsc, <- app_assoc.
    + by apply Forall_app.
Qed.

End SetupCalls.

(** [setup] hands to [db.Exec] statements of [getSchema] and of
    [getSchemaMigrations] for its table name only, on the pool it was given,
    never the empty statement; and the error it records for a call is the
    answer of the server to that statement. *)
Theorem setup_executes_schema_only `{Extern} (db : DB) (tableName : string) (s : State) :
  ∃ calls,
    execs (setup db tableName s).2 = execs s ++ calls ∧
    Forall (λ c, exec_db c = db ∧
                 exec_stmt c ≠ EmptyString ∧
                 (exec_stmt c ∈ getSchema tableName ∨
                  exec_stmt c ∈ getSchemaMigrations tableName) ∧
                 ∃ w, exec_err c = (db_Exec db (exec_stmt c) w).1) calls.
Proof.
  apply setup_calls. intros stmt w Hin Hne. cbn. repeat split; try done. by exists w.
Qed.

(** On a server that answers each statement of [setup] with no error or
    with the duplicate-index error, [setup] returns nil after executing
    every statement it is to execute, in their order. *)
Theorem setup_succeeds `{Extern} (db : DB) (tableName env : string) (s : State) :
  (∀ w, Getenv "KINE_SCHEMA_MIGRATION" w = env) →
  (∀ stmt w, stmt ∈ getSchema tableName ∨ stmt ∈ getSchemaMigrations tableName →
             passed_over (db_Exec db stmt w).1) →
  (setup db tableName s).1 = err_nil ∧
  ∃ calls,
    execs (setup db tableName s).2 = execs s ++ calls ∧
    exec_stmt <$> calls =
      setup_statements (table_found db tableName s) (migration_level env) tableName.
Proof.
  intros Henv Hserver.
  destruct (setup_calls (λ c, passed_over (exec_err c)) db tableName s)
    as (calls & Hcalls & Hall).
  { intros stmt w Hin _. by apply Hserver. }
  destruct (setup_phases db tableName env s Henv) as (sc & mc & e1 & Hex & Hsc & Hmc).
  assert (calls = sc ++ mc) as -> by (eapply app_inv_head; by rewrite <- Hcalls, <- Hex).
  apply Forall_app in Hall as [Hallsc Hallmc].
  assert (∀ stmts l e, ran db stmts l e → Forall (λ c, passed_over (exec_err c)) l →
                       e = err_nil ∧ exec_stmt <$> l = stmts) as Hdone.
  { intros stmts l e [_ [(-> & <- & _)|(_ & l0 & c & stmts' & -> & _ & _ & <- & Hno)]] Hl;
      [done|].
    apply Forall_app in Hl as [_ Hc]. apply Forall_cons in Hc as [Hc _]. by destruct Hno. }
  destruct (Hdone _ _ _ Hsc Hallsc) as [-> Hscs].
  destruct Hmc as [(_ & Hmc)|(? & _)]; [|done].
  destruct (Hdone _ _ _ Hmc Hallmc) as [Hnil Hmcs].
  split; [done|]. exists (sc ++ mc). split; [done|].
  unfold setup_statements. by rewrite fmap_app, Hscs, Hmcs.
Qed.

(** When KINE_SCHEMA_MIGRATION is not set, is empty or is not written in
    decimal digits, no migration is enabled: [setup] executes statements of
    [getSchema] only, and nothing when it finds the table. *)
Theorem setup_without_level `{Extern} (db : DB) (tableName env : string) (s : State) :
  (∀ w, Getenv "KINE_SCHEMA_MIGRATION" w = env) →
  (ParseUint env).2 = Some ErrSyntax →
  ∃ calls,
    execs (setup db tableName s).2 = execs s ++ calls ∧
    Forall (λ c, exec_stmt c ∈ getSchema tableName) calls ∧
    (table_found db tableName s = true → calls = [] ∧ (setup db tableName s).1 = err_nil).
Proof.
  intros Henv Hsyntax.
  destruct (setup_phases db tableName env s Henv) as (sc & mc & e1 & Hex & Hsc & Hmc).
  assert (enabled_migrations (migration_level env) tableName = []) as Hnone.
  { unfold migration_level. rewrite (ParseUint_syntax env Hsyntax). done. }
  assert (mc = [] ∧ (e1 = err_nil → (setup db tableName s).1 = err_nil)) as [-> Hres].
  { destruct Hmc as [(_ & Hmc)|(Hne & -> & _)]; [|done]. rewrite Hnone in Hmc.
    destruct Hmc as [_ [(-> & Hm%fmap_nil_inv & _)|(_ & l0 & c & stmts' & _ & Hst & _)]];
      [done|by destruct (exec_stmt <$> l0)]. }
  rewrite app_nil_r in Hex. exists sc. split; [done|]. split.
  - apply Forall_forall. intros c Hc. eapply ran_stmts in Hc; [|exact Hsc].
    destruct (table_found db tableName s); [by apply elem_of_nil in Hc|done].
  - intros Hfound. rewrite Hfound in Hsc.
    destruct Hsc as [_ [(-> & Hm%fmap_nil_inv & _)|(_ & l0 & c & stmts' & _ & Hst & _)]];
      [|by destruct (exec_stmt <$> l0)].
    split; [done|]. by apply Hres.
Qed.

(** With KINE_SCHEMA_MIGRATION set to the decimal digits of a level [n]
    below 2^63, the migrations executed once the schema statements went
    through are the statements among the first [n] of the list that are
    not empty. *)
Theorem setup_decimal_level `{Extern} (db : DB) (tableName : string) (s : State) (n : N) :
  (∀ w, Getenv "KINE_SCHEMA_MIGRATION" w = Sprint n) →
  (n < 2 ^ 63)%N →
  ∃ sc mc e1,
    execs (setup db tableName s).2 = execs s ++ sc ++ mc ∧
    ran db (if table_found db tableName s then [] else getSchema tableName) sc e1 ∧
    (e1 = err_nil →
     exec_stmt <$> mc =
       filter (λ stmt, stmt ≠ EmptyString) (take (N.to_nat n) (getSchemaMigrations tableName))) ∧
    (e1 ≠ err_nil → mc = []).
Proof.
  intros Henv Hlt. apply (setup_migrations_in_range db tableName (Sprint n) s n Henv); [|done].
  rewrite ParseUint_Sprint; [done|].
  eapply N.lt_trans; [exact Hlt|]. by vm_compute.
Qed.

Lemma setup_succeeds_witness :
  let E := answering "1" indexes_exist in
  let s : @State E := {| world := ({| answers := []; found := false |} : @W E); execs := [] |} in
  (setup (H:=E) "db" "kine" s).1 = err_nil ∧
  ∃ calls,
    execs (setup (H:=E) "db" "kine" s).2 = execs s ++ calls ∧
    exec_stmt <$> calls =
      setup_statements (table_found (H:=E) "db" "kine" s) (migration_level "1") "kine".
Proof.
  intros E s. apply (setup_succeeds (H:=E) "db" "kine" "1" s).
  - intros w. reflexivity.
  - intros stmt w Hin. cbn [db_Exec E answering fst].
    assert (stmt ∈ getSchema "kine" ++ getSchemaMigrations "kine") as Hin'
      by (apply elem_of_app; exact Hin).
    clear Hin. vm_compute in Hin'.
    repeat (apply elem_of_cons in Hin' as [->|Hin']);
      [left; reflexivity
      |right; eexists; split; reflexivity..
      |left; reflexivity|left; reflexivity|by apply elem_of_nil in Hin'].
Defined.

Lemma setup_without_level_witness :
  let s := script EmptyString [] true in
  ∃ calls,
    execs (setup (H:=scripted EmptyString) "db" "kine" s).2 = execs s ++ calls ∧
    Forall (λ c, exec_stmt c ∈ getSchema "kine") calls ∧
    (table_found (H:=scripted EmptyString) "db" "kine" s = true →
     calls = [] ∧ (setup (H:=scripted EmptyString) "db" "kine" s).1 = err_nil).
Proof.
  intros s. apply (setup_without_level (H:=scripted EmptyString) "db" "kine" EmptyString s).
  - intros w. reflexivity.
  - reflexivity.
Defined.

Lemma setup_decimal_level_witness :
  let s := script "1" [] false in
  ∃ sc mc e1,
    execs (setup (H:=scripted "1") "db" "kine" s).2 = execs s ++ sc ++ mc ∧
    ran (H:=scripted "1") "db"
        (if table_found (H:=scripted "1") "db" "kine" s then [] else getSchema "kine") sc e1 ∧
    (e1 = err_nil →
     exec_stmt <$> mc =
       filter (λ stmt, stmt ≠ EmptyString) (take (N.to_nat 1) (getSchemaMigrations "kine"))) ∧
    (e1 ≠ err_nil → mc = []).
Proof.
  intros s. apply (setup_decimal_level (H:=scripted "1") "db" "kine" s 1).
  - intros w. reflexivity.
  - reflexivity.
Defined.



(** ** [createDBIfNotExist] *)

Lemma fatal_unknown_database (err : error) :
  fatal 1049 err = false ↔ unknown_database err.
Proof.
  unfold unknown_database. destruct err as [|e|msg]; cbn.
  - split; [done|]. by intros [e [? _]].
  - destruct (N.eqb_spec (mysql.Number e) 1049) as [Hn|Hn]; cbn; split; try done.
    + intros _. by exists e.
    + intros [e' [[= <-] ?]]. done.
  - split; [done|]. by intros [e [? _]].
Qed.

(** The calls of [createDBIfNotExist] once the DSN is parsed. *)
Lemma createDBIfNotExist_run `{Extern}
    (dataSourceName : string) (s : State) (config : mysql.Config DSNRest) :
  ParseDSN dataSourceName = Ok config →
  ∃ calls,
    execs (createDBIfNotExist dataSourceName s).2 = execs s ++ calls ∧
    Forall (λ c, exec_stmt c = Sprintf createDB [mysql.DBName config]) calls ∧
    (calls = [] ∨
     (∃ c, calls = [c] ∧
           (unknown_database (exec_err c) ∨
            (createDBIfNotExist dataSourceName s).1 = exec_err c)) ∨
     (∃ c1 c2 w, calls = [c1; c2] ∧
           unknown_database (exec_err c1) ∧
           (sql_Open "mysql"
              (FormatDSN {| mysql.DBName := EmptyString;
                            mysql.TLSConfig := mysql.TLSConfig config;
                            mysql.rest := mysql.rest config |}) w).1 = Ok (exec_db c2) ∧
           (createDBIfNotExist dataSourceName s).1 = exec_err c2)).
Proof.
  intros Hparse. unfold createDBIfNotExist. rewrite Hparse.
  unfold mbind, M_bind, Close.
  pose proof (call_execs (sql_Open "mysql" dataSourceName) s) as Ho.
  destruct (call (sql_Open "mysql" dataSourceName) s) as [[db|err] s1]; cbn [snd] in Ho.
  2:{ exists []. rewrite app_nil_r. split; [done|]. split; [done|]. by left. }
  pose proof (call_execs (db_QueryRow_Scan db dbExistsQuery (mysql.DBName config)) s1) as Hq.
  destruct (call (db_QueryRow_Scan db dbExistsQuery (mysql.DBName config)) s1)
    as [[qerr scanned] s2]; cbn [snd] in Hq.
  destruct (negb (if is_nil qerr then scanned else false)).
  2:{ cbn. exists []. rewrite app_nil_r. split; [congruence|]. split; [done|]. by left. }
  set (stmt := Sprintf createDB [mysql.DBName config]).
  pose proof (Exec_execs db stmt s2) as Hx.
  destruct (Exec db stmt s2) as [e s3]; cbn [fst snd] in Hx.
  destruct (is_nil e) eqn:Hnil.
  { destruct e; try done. cbn.
    eexists [_]. split; [by rewrite Hx, Hq, Ho|]. split; [by repeat constructor|].
    right. left. eexists. split; [done|]. by right. }
  destruct (fatal 1049 e) eqn:Hf.
  { cbn. eexists [_]. split; [by rewrite Hx, Hq, Ho|]. split; [by repeat constructor|].
    right. left. eexists. split; [done|]. by right. }
  apply fatal_unknown_database in Hf.
  match goal with |- context [call (sql_Open "mysql" ?d) s3] =>
    pose proof (call_execs (sql_Open "mysql" d) s3) as Ho2;
    assert (∃ w, (call (sql_Open "mysql" d) s3).1 = (sql_Open "mysql" d w).1) as [w Hw]
      by (exists (world s3); unfold call; by destruct (sql_Open "mysql" d (world s3)));
    destruct (call (sql_Open "mysql" d) s3) as [[db'|err] s4] end;
    cbn [fst snd] in Ho2, Hw.
  2:{ cbn. eexists [_]. split; [by rewrite Ho2, Hx, Hq, Ho|]. split; [by repeat constructor|].
      right. left. eexists. split; [done|]. by left. }
  pose proof (Exec_execs db' stmt s4) as Hx2.
  destruct (Exec db' stmt s4) as [e2 s5]; cbn [fst snd] in Hx2.
  cbn. eexists [_; _]. split.
  { rewrite Hx2, Ho2, Hx, Hq, Ho. by rewrite <- app_assoc. }
  split; [by repeat constructor|]. right. right. eexists _, _, w.
  split; [done|]. split; [done|]. split; [by rewrite <- Hw|done].
Qed.

(** [createDBIfNotExist] executes one statement only, the creation of the
    database the DSN names, and at most twice: a second time when the
    server answered the first with the error 1049, then on a pool opened
    for the DSN without its database name, and the error of that second
    call is what it returns.  After one call, it returns the error of the
    call unless that error is 1049. *)
Theorem createDBIfNotExist_statements `{Extern}
    (dataSourceName : string) (s : State) (config : mysql.Config DSNRest) :
  ParseDSN dataSourceName = Ok config →
  ∃ calls,
    execs (createDBIfNotExist dataSourceName s).2 = execs s ++ calls ∧
    Forall (λ c, exec_stmt c = Sprintf createDB [mysql.DBName config]) calls ∧
    (calls = [] ∨
     (∃ c, calls = [c] ∧
           (unknown_database (exec_err c) ∨
            (createDBIfNotExist dataSourceName s).1 = exec_err c)) ∨
     (∃ c1 c2 w, calls = [c1; c2] ∧
           unknown_database (exec_err c1) ∧
           (sql_Open "mysql"
              (FormatDSN {| mysql.DBName := EmptyString;
                            mysql.TLSConfig := mysql.TLSConfig config;
                            mysql.rest := mysql.rest config |}) w).1 = Ok (exec_db c2) ∧
           (createDBIfNotExist dataSourceName s).1 = exec_err c2)).
Proof. apply createDBIfNotExist_run. Qed.

Lemma createDBIfNotExist_statements_witness :
  let dsn := "root@unix(/var/run/mysqld/mysqld.sock)/kubernetes" in
  let s := script "1" [unknown_db; err_nil] false in
  ∃ calls,
    execs (createDBIfNotExist (H:=scripted "1") dsn s).2 = execs s ++ calls ∧
    Forall (λ c, exec_stmt c = Sprintf createDB ["kubernetes"]) calls ∧
    (calls = [] ∨
     (∃ c, calls = [c] ∧
           (unknown_database (exec_err c) ∨
            (createDBIfNotExist (H:=scripted "1") dsn s).1 = exec_err c)) ∨
     (∃ c1 c2 w, calls = [c1; c2] ∧
           unknown_database (exec_err c1) ∧
           (sql_Open (Extern:=scripted "1") "mysql"
              (FormatDSN (Extern:=scripted "1")
                 {| mysql.DBName := EmptyString; mysql.TLSConfig := EmptyString;
                    mysql.rest := "root@unix(/var/run/mysqld/mysqld.sock)/" |}) w).1
             = Ok (exec_db c2) ∧
           (createDBIfNotExist (H:=scripted "1") dsn s).1 = exec_err c2)).
Proof.
  intros dsn s.
  apply (createDBIfNotExist_statements (H:=scripted "1") dsn s
           {| mysql.DBName := "kubernetes"; mysql.TLSConfig := EmptyString;
              mysql.rest := "root@unix(/var/run/mysqld/mysqld.sock)/" |}).
  reflexivity.
Defined.

(** The run of the scripted server above: the server does not know the
    database, the statement is executed again on a pool without database
    name, and goes through. *)
Example createDBIfNotExist_retry :
  let r := createDBIfNotExist (H:=scripted "1")
             "root@unix(/var/run/mysqld/mysqld.sock)/kubernetes"
             (script "1" [unknown_db; err_nil] false) in
  r.1 = err_nil ∧
  exec_db (H:=scripted "1") <$> execs r.2
    = [ "root@unix(/var/run/mysqld/mysqld.sock)/kubernetes";
        "root@unix(/var/run/mysqld/mysqld.sock)/" ] ∧
  exec_err (H:=scripted "1") <$> execs r.2 = [unknown_db; err_nil].
Proof. by vm_compute. Qed.

(** When the existence query finds the database, [createDBIfNotExist]
    executes nothing and returns nil. *)
Theorem createDBIfNotExist_existing `{Extern}
    (dataSourceName : string) (s : State) (config : mysql.Config DSNRest)
    (db : DB) (w1 w2 : W) :
  ParseDSN dataSourceName = Ok config →
  sql_Open "mysql" dataSourceName (world s) = (Ok db, w1) →
  db_QueryRow_Scan db dbExistsQuery (mysql.DBName config) w1 = ((err_nil, true), w2) →
  (createDBIfNotExist dataSourceName s).1 = err_nil ∧
  execs (createDBIfNotExist dataSourceName s).2 = execs s.
Proof.
  intros Hparse Hopen Hquery. unfold createDBIfNotExist. rewrite Hparse.
  unfold mbind, M_bind, Close, call. rewrite Hopen. cbn. rewrite Hquery. by cbn.
Qed.

Lemma createDBIfNotExist_existing_witness :
  let dsn := "root@unix(/var/run/mysqld/mysqld.sock)/kubernetes" in
  let s := script "1" [access_denied] true in
  (createDBIfNotExist (H:=scripted "1") dsn s).1 = err_nil ∧
  execs (createDBIfNotExist (H:=scripted "1") dsn s).2 = execs s.
Proof.
  intros dsn s.
  apply (createDBIfNotExist_existing (H:=scripted "1") dsn s
           {| mysql.DBName := "kubernetes"; mysql.TLSConfig := EmptyString;
              mysql.rest := "root@unix(/var/run/mysqld/mysqld.sock)/" |}
           dsn (world s) (world s)); reflexivity.
Defined.


(** ** More on [prepareDSN] *)


(** When [prepareDSN] returns an error, the string it returns is empty, and
    the error is that of [mysql.ParseDSN] on the data source name (the
    default one when it is empty) or that of [mysql.RegisterTLSConfig]. *)
Theorem prepareDSN_error `{Extern}
    (dataSourceName : string) (tlsConfig : option (TLSConfig TLSRest)) (s : State) :
  let default := match tlsConfig with Some _ => defaultHostDSN | None => defaultUnixDSN end in
  let dsn := if decide (dataSourceName = EmptyString) then default else dataSourceName in
  let r := (prepareDSN dataSourceName tlsConfig s).1 in
  r.2 ≠ err_nil →
  r.1 = EmptyString ∧
  (ParseDSN dsn = Fail r.2 ∨
   ∃ config tc, ParseDSN dsn = Ok config ∧ tlsConfig = Some tc ∧
                (RegisterTLSConfig "kine" tc (world s)).1 = r.2).
Proof.
  intros default dsn. unfold prepareDSN. fold default.
  replace (if (String.length dataSourceName =? 0)%nat then default else dataSourceName)
    with dsn by by destruct dataSourceName.
  destruct (ParseDSN dsn) as [config|err] eqn:Hparse.
  2:{ cbn. intros _. split; [done|]. by left. }
  unfold mbind, M_bind, call. destruct tlsConfig as [tc|].
  2:{ cbn. intros Hne. exfalso. by apply Hne. }
  destruct (RegisterTLSConfig "kine" tc (world s)) as [e w1] eqn:Hreg.
  destruct e; cbn.
  - intros Hne. exfalso. by apply Hne.
  - intros _. split; [done|]. right. exists config, tc. by rewrite Hreg.
  - intros _. split; [done|]. right. exists config, tc. by rewrite Hreg.
Qed.

Lemma prepareDSN_error_witness :
  let r := (prepareDSN (H:=scripted "1") "kine" None (script "1" [] false)).1 in
  r.1 = EmptyString ∧
  (ParseDSN (Extern:=scripted "1") "kine" = Fail r.2 ∨
   ∃ config tc, ParseDSN (Extern:=scripted "1") "kine" = Ok config ∧ None = Some tc ∧
                (RegisterTLSConfig (Extern:=scripted "1") "kine" tc
                   (world (script "1" [] false))).1 = r.2).
Proof.
  apply (prepareDSN_error (H:=scripted "1") "kine" None (script "1" [] false)).
  discriminate.
Defined.

(** ** More on [New] *)



(** ** More on the error translator and the error code *)

(** Translation keeps an error an error and nil nil, [server.ErrKeyExists]
    being an error. *)
Theorem TranslateErr_nil `{Extern}
    (dialect : Generic DB GenericRest) (tableName : string) (err : error) :
  ErrKeyExists ≠ err_nil →
  TranslateErr (configure dialect tableName) err = err_nil ↔ err = err_nil.
Proof.
  intros Hkey. cbn. unfold mysqlTranslateErr. destruct err as [|e|msg]; cbn; [done| |done].
  destruct (mysql.Number e =? 1062)%N; [|done]. split; [done|]. by intros [=].
Qed.

Lemma TranslateErr_nil_witness :
  TranslateErr (configure (H:=scripted "1") example_dialect "kine") duplicate_key = err_nil
  ↔ duplicate_key = err_nil.
Proof. apply (TranslateErr_nil (H:=scripted "1")). discriminate. Defined.

(** Two MySQL errors have the same code exactly when they have the same
    number. *)
Theorem ErrCode_number `{Extern}
    (dialect : Generic DB GenericRest) (tableName : string) (e1 e2 : mysql.MySQLError) :
  ErrCode (configure dialect tableName) (err_mysql e1)
    = ErrCode (configure dialect tableName) (err_mysql e2)
  ↔ mysql.Number e1 = mysql.Number e2.
Proof.
  cbn. split; [|by intros ->]. intros Heq.
  pose proof (Sprint_decimal (mysql.Number e1)) as H1.
  pose proof (Sprint_decimal (mysql.Number e2)) as H2.
  rewrite Heq in H1. rewrite H1 in H2. by injection H2.
Qed.

(** ** More on the schema *)

Lemma append_cancel (w a b : string) : w +:+ a = w +:+ b → a = b.
Proof.
  induction w as [|c w IH]; [done|]. rewrite !append_cons. intros [= Heq]. by apply IH.
Qed.

Lemma getSchema_read_indexes (tableName : string) :
  one_word tableName →
  (∃ cols pk, parse (Sprintf createTableFmt [tableName]) = Some (CreateTable tableName cols pk)) ∧
  parse <$> drop 1 (getSchema tableName) =
  [ Some (CreateIndex false (tableName +:+ "_name_index") tableName ["name"]);
    Some (CreateIndex false (tableName +:+ "_name_id_index") tableName ["name"; "id"]);
    Some (CreateIndex false (tableName +:+ "_id_deleted_index") tableName ["id"; "deleted"]);
    Some (CreateIndex false (tableName +:+ "_prev_revision_index") tableName ["prev_revision"]);
    Some (CreateIndex true (tableName +:+ "_name_prev_revision_uindex") tableName
            ["name"; "prev_revision"]) ].
Proof.
  intros [Hne Hw]. split.
  - eexists _, _. cbv [Sprintf createTableFmt]. read_statement tableName Hw.
  - unfold getSchema. cbn [drop fmap list_fmap].
    repeat (f_equal; [|]).
    + cbv [Sprintf nameIndexFmt]. read_statement tableName Hw.
    + cbv [Sprintf nameIdIndexFmt]. read_statement tableName Hw.
    + cbv [Sprintf idDeletedIndexFmt]. read_statement tableName Hw.
    + cbv [Sprintf prevRevisionIndexFmt]. read_statement tableName Hw.
    + cbv [Sprintf namePrevRevisionUindexFmt]. read_statement tableName Hw.
Qed.

(** The five indexes of [getSchema] have five different names, so that on
    a new table no CREATE INDEX meets the duplicate-index error that
    [setup] passes over. *)
Theorem getSchema_index_names (tableName : string) :
  one_word tableName →
  let names := omap (λ st, st ≫= index_name) (parse <$> getSchema tableName) in
  names = [ tableName +:+ "_name_index"; tableName +:+ "_name_id_index";
            tableName +:+ "_id_deleted_index"; tableName +:+ "_prev_revision_index";
            tableName +:+ "_name_prev_revision_uindex" ] ∧
  NoDup names.
Proof.
  intros Hword. destruct (getSchema_read_indexes tableName Hword) as [(cols & pk & Ht) Hi].
  cbn zeta.
  change (getSchema tableName) with
    (Sprintf createTableFmt [tableName] :: drop 1 (getSchema tableName)).
  rewrite fmap_cons, Hi, Ht. cbn [omap list_omap mbind option_bind index_name].
  split; [done|].
  repeat (apply NoDup_cons; split;
          [intros Hin;
           repeat (apply elem_of_cons in Hin as [Hin%append_cancel|Hin]; [discriminate Hin|]);
           by apply elem_of_nil in Hin|]).
  apply NoDup_nil_2.
Qed.

Lemma getSchema_index_names_witness :
  let names := omap (λ st, st ≫= index_name) (parse <$> getSchema "kine") in
  names = [ "kine_name_index"; "kine_name_id_index"; "kine_id_deleted_index";
            "kine_prev_revision_index"; "kine_name_prev_revision_uindex" ] ∧
  NoDup names.
Proof.
  apply (getSchema_index_names "kine"). split; [discriminate|]. repeat constructor.
Defined.
